(** * apigeeruntime.js: the Apigee runtime SPI of volos-oauth

    A shallow embedding of [oauth/apigee/lib/apigeeruntime.js] and of the
    parts of the JavaScript runtime it relies on, followed by the properties
    of the request builders, the dispatcher and the three response
    interpreters.

    Conventions of the embedding.
    - A JavaScript string is a [string] of bytes (its UTF-8 encoding).  Every
      string operation the module performs ([indexOf] of an ASCII prefix,
      [substring(4)] after that prefix, [split(' ')], emptiness tests) acts
      alike on UTF-16 code units and on UTF-8 bytes.
    - A JavaScript number is an exact decimal [m * 10^e] or [NaN]; the
      rounding of IEEE doubles is not modelled.
    - [undefined] is [None] of an [option]; a value that is never
      [undefined] is a [jsval].
    - An exception that escapes an event handler is an explicit outcome
      ([Uncaught]); the completion callback is then never invoked. *)

From Stdlib Require Import ZArith Ascii String List Bool Lia PreOmega.
From stdpp Require Import base option list strings gmap pretty.

Set Warnings "-register-all".
Local Open Scope Z_scope.

(** ** Strings *)

Module Str.

Definition of_list (l : list ascii) : string := string_of_list_ascii l.
Definition to_list (s : string) : list ascii := list_ascii_of_string s.

Definition code (c : ascii) : Z := Z.of_N (N_of_ascii c).
Definition chr (z : Z) : ascii := ascii_of_N (Z.to_N z).

Definition is_digit (c : ascii) : bool := (48 <=? code c) && (code c <=? 57).
Definition is_lower (c : ascii) : bool := (97 <=? code c) && (code c <=? 122).
Definition is_upper (c : ascii) : bool := (65 <=? code c) && (code c <=? 90).
Definition is_alpha (c : ascii) : bool := is_lower c || is_upper c.
Definition digit_val (c : ascii) : Z := code c - 48.

Definition lower (c : ascii) : ascii := if is_upper c then chr (code c + 32) else c.

Definition hex_val (c : ascii) : option Z :=
  if is_digit c then Some (code c - 48)
  else if (97 <=? code c) && (code c <=? 102) then Some (code c - 87)
  else if (65 <=? code c) && (code c <=? 70) then Some (code c - 55)
  else None.

Definition hex_digit (upper : bool) (z : Z) : ascii :=
  if z <? 10 then chr (48 + z) else chr ((if upper then 55 else 87) + z).

(** [s.indexOf(p) === 0] *)
Fixpoint starts_with (p s : string) : bool :=
  match p, s with
  | EmptyString, _ => true
  | String a p', String b s' => if decide (a = b) then starts_with p' s' else false
  | String _ _, EmptyString => false
  end.

(** [s.substring(n)] *)
Fixpoint drop (n : nat) (s : string) : string :=
  match n, s with
  | O, _ => s
  | S n', String _ s' => drop n' s'
  | S _, EmptyString => EmptyString
  end.

(** [s.split(c)] for a separator of one character: never empty, the empty
    string gives one empty piece. *)
Fixpoint split (c : ascii) (s : string) : list string :=
  match s with
  | EmptyString => [EmptyString]
  | String a s' =>
      if decide (a = c) then EmptyString :: split c s'
      else match split c s' with
           | [] => [String a EmptyString]
           | w :: ws => String a w :: ws
           end
  end.

(** [l.join(sep)] *)
Fixpoint join (sep : string) (l : list string) : string :=
  match l with
  | [] => ""
  | [x] => x
  | x :: r => x +:+ sep +:+ join sep r
  end.

(** The cut at the first occurrence of [c]: [s.indexOf(c)],
    [s.substr(0, idx)] and [s.substr(idx + 1)]. *)
Fixpoint cut (c : ascii) (s : string) : option (string * string) :=
  match s with
  | EmptyString => None
  | String a s' =>
      if decide (a = c) then Some (EmptyString, s')
      else match cut c s' with
           | Some (k, v) => Some (String a k, v)
           | None => None
           end
  end.

(** The white space and line terminators of ECMAScript (WhiteSpace and
    LineTerminator, with the byte order mark), as UTF-8 byte sequences. *)
Definition white_space : list string :=
  map (λ c, String c "") [ "009"; "010"; "011"; "012"; "013"; " " ]%char ++
  map of_list
    [ [chr 194; chr 160]; [chr 225; chr 154; chr 128];
      [chr 226; chr 128; chr 128]; [chr 226; chr 128; chr 129];
      [chr 226; chr 128; chr 130]; [chr 226; chr 128; chr 131];
      [chr 226; chr 128; chr 132]; [chr 226; chr 128; chr 133];
      [chr 226; chr 128; chr 134]; [chr 226; chr 128; chr 135];
      [chr 226; chr 128; chr 136]; [chr 226; chr 128; chr 137];
      [chr 226; chr 128; chr 138]; [chr 226; chr 128; chr 168];
      [chr 226; chr 128; chr 169]; [chr 226; chr 128; chr 175];
      [chr 226; chr 129; chr 159]; [chr 227; chr 128; chr 128];
      [chr 239; chr 187; chr 191] ].

(** One white space removed from the front, when there is one. *)
Definition strip_one (s : string) : option string :=
  match List.find (λ w, starts_with w s) white_space with
  | Some w => Some (drop (String.length w) s)
  | None => None
  end.

Fixpoint trim_left_go (fuel : nat) (s : string) : string :=
  match fuel with
  | O => s
  | S fuel' => match strip_one s with
               | Some s' => trim_left_go fuel' s'
               | None => s
               end
  end.

(** Leading white space removed; every round removes at least one byte, so
    the length of the string is fuel enough. *)
Definition trim_left (s : string) : string := trim_left_go (String.length s) s.

Fixpoint take_while (p : ascii → bool) (s : string) : string :=
  match s with
  | String a s' => if p a then String a (take_while p s') else EmptyString
  | EmptyString => EmptyString
  end.

Fixpoint drop_while (p : ascii → bool) (s : string) : string :=
  match s with
  | String a s' => if p a then drop_while p s' else s
  | EmptyString => EmptyString
  end.

(** The value of a string of decimal digits. *)
Definition digits_val (s : string) : Z :=
  fold_left (λ acc c, 10 * acc + digit_val c) (to_list s) 0.

Fixpoint repeat0 (n : nat) : string :=
  match n with O => "" | S n' => String "0" (repeat0 n') end.

Definition take (n : nat) (s : string) : string := String.substring 0 n s.

(** A leading sign taken off: whether it is a minus, and what follows. *)
Definition strip_sign (s : string) : bool * string :=
  match s with
  | String c r =>
      if decide (c = "-"%char) then (true, r)
      else if decide (c = "+"%char) then (false, r)
      else (false, s)
  | EmptyString => (false, s)
  end.

Fixpoint all (p : ascii → bool) (s : string) : bool :=
  match s with
  | String a s' => p a && all p s'
  | EmptyString => true
  end.

(** A way to write a text that holds double quotes: every apostrophe of
    [s] stands for one. *)
Fixpoint q (s : string) : string :=
  match s with
  | EmptyString => EmptyString
  | String c r => String (if decide (c = "'"%char) then "034"%char else c) (q r)
  end.

End Str.

(** ** JavaScript values *)

Module JS.

(** [Fin m e] is the number [m * 10^e]. *)
Inductive jsnum :=
| NaN
| Fin (m : Z) (e : Z).

(** The values the module handles: what [JSON.parse] and
    [querystring.parse] build.  An array may carry named properties next to
    its elements ([json.token_type = ...] on a decoded array). *)
Inductive jsval :=
| JNull
| JBool (b : bool)
| JNum (n : jsnum)
| JStr (s : string)
| JArr (elems : list jsval) (named : list (string * jsval))
| JObj (props : list (string * jsval)).

Inductive exn := SyntaxError | TypeError.

(** A computation that returns or throws. *)
Inductive throws (A : Type) :=
| Ret (a : A)
| Throw (e : exn).
Global Arguments Ret {A} a.
Global Arguments Throw {A} e.

Global Instance throws_ret : MRet throws := λ A a, Ret a.
Global Instance throws_bind : MBind throws := λ A B f m,
  match m with
  | Ret a => f a
  | Throw e => Throw e
  end.

(** ToBoolean *)
Definition truthy (v : jsval) : bool :=
  match v with
  | JNull => false
  | JBool b => b
  | JNum NaN => false
  | JNum (Fin m _) => negb (m =? 0)
  | JStr s => negb (String.eqb s "")
  | JArr _ _ | JObj _ => true
  end.

Definition truthy_opt (v : option jsval) : bool :=
  match v with
  | Some v => truthy v
  | None => false
  end.

(** Number::toString: with [k] significant digits [ds] and the decimal
    point after the [n]-th of them. *)
Definition digits_to_string (ds : string) (n : Z) : string :=
  let k := Z.of_nat (String.length ds) in
  if (k <=? n) && (n <=? 21) then ds +:+ Str.repeat0 (Z.to_nat (n - k))
  else if (0 <? n) && (n <=? 21) then
    Str.take (Z.to_nat n) ds +:+ "." +:+ Str.drop (Z.to_nat n) ds
  else if (-6 <? n) && (n <=? 0) then
    "0." +:+ Str.repeat0 (Z.to_nat (- n)) +:+ ds
  else
    let ex := (if 0 <=? n - 1 then "+" else "-") +:+ pretty (Z.abs (n - 1)) in
    if k =? 1 then ds +:+ "e" +:+ ex
    else Str.take 1 ds +:+ "." +:+ Str.drop 1 ds +:+ "e" +:+ ex.

Definition number_to_string (x : jsnum) : string :=
  match x with
  | NaN => "NaN"
  | Fin m e =>
      if m =? 0 then "0"
      else
        let all := pretty (Z.abs m) in
        let zeros := String.rev (Str.take_while (λ c, if decide (c = "0"%char) then true else false)
                                                (String.rev all)) in
        let ds := Str.take (String.length all - String.length zeros) all in
        let n := Z.of_nat (String.length all) + e in
        (if m <? 0 then "-" else "") +:+ digits_to_string ds n
  end.

(** ToString; [Array.prototype.join] prints [null] as the empty string. *)
Fixpoint to_string (v : jsval) : string :=
  match v with
  | JNull => "null"
  | JBool true => "true"
  | JBool false => "false"
  | JNum n => number_to_string n
  | JStr s => s
  | JArr l _ =>
      Str.join ","
        ((fix each (l : list jsval) : list string :=
            match l with
            | [] => []
            | JNull :: r => "" :: each r
            | x :: r => to_string x :: each r
            end) l)
  | JObj _ => "[object Object]"
  end.

Definition to_string_opt (v : option jsval) : string :=
  match v with
  | Some v => to_string v
  | None => "undefined"
  end.

(** Objects as association lists in insertion order, keys distinct. *)
Fixpoint lookup_prop (k : string) (ps : list (string * jsval)) : option jsval :=
  match ps with
  | [] => None
  | (k', v) :: r => if decide (k' = k) then Some v else lookup_prop k r
  end.

Fixpoint set_prop (k : string) (v : jsval) (ps : list (string * jsval))
  : list (string * jsval) :=
  match ps with
  | [] => [(k, v)]
  | (k', v') :: r => if decide (k' = k) then (k, v) :: r else (k', v') :: set_prop k v r
  end.

(** [v.k] for a property name [k] that is neither an array index, nor
    [length], nor a name of a built-in prototype: the names the module reads
    are [expires_in], [attributes], [ErrorCode], [Error], [scope].  Reading
    a property of [null] throws; primitives have no such property. *)
Definition get (k : string) (v : jsval) : throws (option jsval) :=
  match v with
  | JNull => Throw TypeError
  | JObj ps => Ret (lookup_prop k ps)
  | JArr _ ps => Ret (lookup_prop k ps)
  | JBool _ | JNum _ | JStr _ => Ret None
  end.

(** [v.k = x] in strict mode: creating a property on a primitive throws. *)
Definition set (k : string) (x : jsval) (v : jsval) : throws jsval :=
  match v with
  | JObj ps => Ret (JObj (set_prop k x ps))
  | JArr l ps => Ret (JArr l (set_prop k x ps))
  | JNull | JBool _ | JNum _ | JStr _ => Throw TypeError
  end.

(** [parseInt(v, 10)]: leading white space, a sign, then the longest run of
    decimal digits; [NaN] when there is none. *)
Definition parseInt (v : jsval) : jsnum :=
  let s := Str.trim_left (to_string v) in
  let neg := fst (Str.strip_sign s) in
  let ds := Str.take_while Str.is_digit (snd (Str.strip_sign s)) in
  if String.eqb ds "" then NaN
  else Fin (if neg then - Str.digits_val ds else Str.digits_val ds) 0.

(** [a === b] where [b] is a string literal. *)
Definition is_string (lit : string) (v : option jsval) : bool :=
  match v with
  | Some (JStr s) => String.eqb s lit
  | _ => false
  end.

End JS.
Export JS.

(** ** JSON *)

Module JSON.

Inductive res (A : Type) :=
| Parsed (a : A) (rest : list ascii)
| Bad
| OutOfFuel.
Global Arguments Parsed {A} a rest.
Global Arguments Bad {A}.
Global Arguments OutOfFuel {A}.

Definition is_ws (c : ascii) : bool :=
  match c with
  | "009" | "010" | "013" | " " => true
  | _ => false
  end%char.

Fixpoint ws (s : list ascii) : list ascii :=
  match s with
  | c :: r => if is_ws c then ws r else s
  | [] => []
  end.

Fixpoint span (p : ascii → bool) (s : list ascii) : list ascii * list ascii :=
  match s with
  | c :: r => if p c then let '(a, b) := span p r in (c :: a, b) else ([], s)
  | [] => ([], [])
  end.

Definition lit (word : string) (v : jsval) (s : list ascii) : res jsval :=
  if Str.starts_with word (Str.of_list s)
  then Parsed v (drop (String.length word) s)
  else Bad.

Definition literal (s : list ascii) : res jsval :=
  match s with
  | c :: _ =>
      if decide (c = "n"%char) then lit "null" JNull s
      else if decide (c = "t"%char) then lit "true" (JBool true) s
      else if decide (c = "f"%char) then lit "false" (JBool false) s
      else Bad
  | [] => Bad
  end.

Definition digits_val (ds : list ascii) : Z :=
  fold_left (λ acc c, 10 * acc + Str.digit_val c) ds 0.

(** The parts of a JSON number: an optional minus sign; a zero, or a digit
    from 1 to 9 and any digits; an optional fraction (a point and one digit
    or more); an optional exponent (e or E, an optional sign, one digit or
    more). *)
Definition minus_sign (s : list ascii) : bool * list ascii :=
  match s with
  | c :: r => if decide (c = "-"%char) then (true, r) else (false, s)
  | [] => (false, s)
  end.

Definition int_part (s : list ascii) : list ascii * list ascii :=
  match s with
  | c :: r => if decide (c = "0"%char) then ([c], r) else span Str.is_digit s
  | [] => ([], s)
  end.

Definition frac_part (s : list ascii) : option (list ascii * list ascii) :=
  match s with
  | c :: r =>
      if decide (c = "."%char) then
        match span Str.is_digit r with
        | ([], _) => None
        | (fr, r') => Some (fr, r')
        end
      else Some ([], s)
  | [] => Some ([], s)
  end.

Definition exp_sign (s : list ascii) : bool * list ascii :=
  match s with
  | c :: r =>
      if decide (c = "-"%char) then (true, r)
      else if decide (c = "+"%char) then (false, r)
      else (false, s)
  | [] => (false, s)
  end.

Definition exp_part (s : list ascii) : option (Z * list ascii) :=
  match s with
  | c :: r =>
      if decide (c = "e"%char ∨ c = "E"%char) then
        match span Str.is_digit (snd (exp_sign r)) with
        | ([], _) => None
        | (ed, r') =>
            Some (if fst (exp_sign r) then - digits_val ed else digits_val ed, r')
        end
      else Some (0, s)
  | [] => Some (0, s)
  end.

Definition number (s : list ascii) : res jsval :=
  let neg := fst (minus_sign s) in
  let '(int, s) := int_part (snd (minus_sign s)) in
  match int with
  | [] => Bad
  | _ =>
      match frac_part s with
      | None => Bad
      | Some (fr, s) =>
          match exp_part s with
          | None => Bad
          | Some (e, s) =>
              let m := digits_val (int ++ fr) in
              Parsed (JNum (Fin (if neg then - m else m) (e - Z.of_nat (length fr)))) s
          end
      end
  end.

(** The UTF-8 bytes of a code point (a lone surrogate is encoded like any
    other code point below 65536). *)
Definition utf8 (cp : Z) : list ascii :=
  if cp <? 128 then [Str.chr cp]
  else if cp <? 2048 then
    [Str.chr (192 + cp / 64); Str.chr (128 + cp mod 64)]
  else if cp <? 65536 then
    [Str.chr (224 + cp / 4096); Str.chr (128 + (cp / 64) mod 64);
     Str.chr (128 + cp mod 64)]
  else
    [Str.chr (240 + cp / 262144); Str.chr (128 + (cp / 4096) mod 64);
     Str.chr (128 + (cp / 64) mod 64); Str.chr (128 + cp mod 64)].

Definition hex4 (a b c d : ascii) : option Z :=
  match Str.hex_val a, Str.hex_val b, Str.hex_val c, Str.hex_val d with
  | Some x, Some y, Some z, Some w => Some (((x * 16 + y) * 16 + z) * 16 + w)
  | _, _, _, _ => None
  end.

Definition simple_escape (c : ascii) : option ascii :=
  match c with
  | "034" => Some "034"
  | "\" => Some "\"
  | "/" => Some "/"
  | "b" => Some "008"
  | "f" => Some "012"
  | "n" => Some "010"
  | "r" => Some "013"
  | "t" => Some "009"
  | _ => None
  end%char.

(** The characters of a string literal after its opening quote, up to the
    closing quote. *)
Fixpoint chars (s : list ascii) : option (list ascii * list ascii) :=
  match s with
  | [] => None
  | c :: r =>
      if decide (c = "034"%char) then Some ([], r)
      else if decide (c = "\"%char) then
        match r with
        | [] => None
        | e :: r1 =>
            if decide (e = "u"%char) then
              match r1 with
              | h1 :: h2 :: h3 :: h4 :: r2 =>
                  match hex4 h1 h2 h3 h4 with
                  | None => None
                  | Some hi =>
                      let single :=
                        match chars r2 with
                        | Some (cs, r') => Some (utf8 hi ++ cs, r')
                        | None => None
                        end in
                      if (55296 <=? hi) && (hi <? 56320) then
                        match r2 with
                        | b :: u :: l1 :: l2 :: l3 :: l4 :: r3 =>
                            match hex4 l1 l2 l3 l4 with
                            | Some lo =>
                                if bool_decide (b = "\"%char) && bool_decide (u = "u"%char)
                                   && (56320 <=? lo) && (lo <? 57344) then
                                  match chars r3 with
                                  | Some (cs, r') =>
                                      Some (utf8 (65536 + (hi - 55296) * 1024 + (lo - 56320)) ++ cs, r')
                                  | None => None
                                  end
                                else single
                            | None => single
                            end
                        | _ => single
                        end
                      else single
                  end
              | _ => None
              end
            else
              match simple_escape e with
              | Some x =>
                  match chars r1 with
                  | Some (cs, r') => Some (x :: cs, r')
                  | None => None
                  end
              | None => None
              end
        end
      else if Str.code c <? 32 then None
      else match chars r with
           | Some (cs, r') => Some (c :: cs, r')
           | None => None
           end
  end.

Fixpoint value (fuel : nat) (s : list ascii) : res jsval :=
  match fuel with
  | O => OutOfFuel
  | S fuel =>
      match ws s with
      | [] => Bad
      | c :: r =>
          if decide (c = "{"%char) then
            match ws r with
            | [] => Bad
            | c' :: r' =>
                if decide (c' = "}"%char) then Parsed (JObj []) r'
                else members fuel r []
            end
          else if decide (c = "["%char) then
            match ws r with
            | [] => Bad
            | c' :: r' =>
                if decide (c' = "]"%char) then Parsed (JArr [] []) r'
                else elements fuel r []
            end
          else if decide (c = "034"%char) then
            match chars r with
            | Some (cs, r') => Parsed (JStr (Str.of_list cs)) r'
            | None => Bad
            end
          else if bool_decide (c = "-"%char) || Str.is_digit c then number (c :: r)
          else literal (c :: r)
      end
  end
with elements (fuel : nat) (s : list ascii) (acc : list jsval) : res jsval :=
  match fuel with
  | O => OutOfFuel
  | S fuel =>
      match value fuel s with
      | Parsed v r =>
          match ws r with
          | c :: r' =>
              if decide (c = ","%char) then elements fuel r' (v :: acc)
              else if decide (c = "]"%char) then Parsed (JArr (rev (v :: acc)) []) r'
              else Bad
          | [] => Bad
          end
      | Bad => Bad
      | OutOfFuel => OutOfFuel
      end
  end
with members (fuel : nat) (s : list ascii) (acc : list (string * jsval)) : res jsval :=
  match fuel with
  | O => OutOfFuel
  | S fuel =>
      match ws s with
      | [] => Bad
      | c :: r =>
          if decide (c = "034"%char) then
            match chars r with
            | None => Bad
            | Some (k, r1) =>
                match ws r1 with
                | [] => Bad
                | c1 :: r2 =>
                    if decide (c1 = ":"%char) then
                      match value fuel r2 with
                      | Parsed v r3 =>
                          let acc' := set_prop (Str.of_list k) v acc in
                          match ws r3 with
                          | c3 :: r4 =>
                              if decide (c3 = ","%char) then members fuel r4 acc'
                              else if decide (c3 = "}"%char) then Parsed (JObj acc') r4
                              else Bad
                          | [] => Bad
                          end
                      | Bad => Bad
                      | OutOfFuel => OutOfFuel
                      end
                    else Bad
                end
            end
          else Bad
      end
  end.

Definition fuel_for (s : list ascii) : nat := (2 * length s + 2)%nat.

(** [JSON.parse(text)]: the decoded value, or a [SyntaxError]. *)
Definition parse (text : string) : throws jsval :=
  let s := Str.to_list text in
  match value (fuel_for s) s with
  | Parsed v r => match ws r with [] => Ret v | _ => Throw SyntaxError end
  | Bad | OutOfFuel => Throw SyntaxError
  end.

Definition quote_char (c : ascii) : string :=
  let esc (x : ascii) := String "\"%char (String x "") in
  match c with
  | "034"%char => esc "034"%char
  | "\"%char => esc "\"%char
  | "008"%char => esc "b"%char
  | "012"%char => esc "f"%char
  | "010"%char => esc "n"%char
  | "013"%char => esc "r"%char
  | "009"%char => esc "t"%char
  | _ =>
      if Str.code c <? 32 then
        "\u00" +:+ String (Str.hex_digit false (Str.code c / 16))
                     (String (Str.hex_digit false (Str.code c mod 16)) "")
      else String c ""
  end.

Fixpoint quote_go (s : string) : string :=
  match s with
  | EmptyString => String "034" ""
  | String c r => quote_char c +:+ quote_go r
  end.

Definition quote (s : string) : string := String "034" (quote_go s).

(** [JSON.stringify(v)] of a value that is not [undefined]. *)
Fixpoint stringify (v : jsval) : string :=
  match v with
  | JNull => "null"
  | JBool true => "true"
  | JBool false => "false"
  | JNum NaN => "null"
  | JNum n => number_to_string n
  | JStr s => quote s
  | JArr l _ =>
      "[" +:+ Str.join ","
        ((fix each (l : list jsval) : list string :=
            match l with
            | [] => []
            | x :: r => stringify x :: each r
            end) l) +:+ "]"
  | JObj ps =>
      "{" +:+ Str.join ","
        ((fix each (ps : list (string * jsval)) : list string :=
            match ps with
            | [] => []
            | (k, x) :: r => (quote k +:+ ":" +:+ stringify x) :: each r
            end) ps) +:+ "}"
  end.

End JSON.

(** ** The [querystring], [url], [Buffer] and [underscore] functions used *)

Module Querystring.

Definition unreserved (c : ascii) : bool :=
  Str.is_alpha c || Str.is_digit c ||
  bool_decide (c ∈ ["-"; "_"; "."; "!"; "~"; "*"; "'"; "("; ")"]%char).

(** [querystring.escape], which is [encodeURIComponent]. *)
Fixpoint escape (s : string) : string :=
  match s with
  | EmptyString => EmptyString
  | String c r =>
      if unreserved c then String c (escape r)
      else String "%" (String (Str.hex_digit true (Str.code c / 16))
                         (String (Str.hex_digit true (Str.code c mod 16)) (escape r)))
  end.

(** Percent-decoding: [decodeURIComponent], with the fallback of
    [querystring.parse] that leaves a malformed escape in place. *)
Fixpoint unescape (s : string) : string :=
  match s with
  | EmptyString => EmptyString
  | String c r =>
      if decide (c = "%"%char) then
        match r with
        | String a (String b r') =>
            match Str.hex_val a, Str.hex_val b with
            | Some x, Some y => String (Str.chr (16 * x + y)) (unescape r')
            | _, _ => String c (unescape r)
            end
        | _ => String c (unescape r)
        end
      else String c (unescape r)
  end.

(** [x.replace(/\+/g, '%20')] *)
Fixpoint plus_to_space (s : string) : string :=
  match s with
  | EmptyString => EmptyString
  | String c r =>
      if decide (c = "+"%char) then "%20" +:+ plus_to_space r
      else String c (plus_to_space r)
  end.

Definition stringifyPrimitive (v : option jsval) : string :=
  match v with
  | Some (JStr s) => s
  | Some (JBool true) => "true"
  | Some (JBool false) => "false"
  | Some (JNum NaN) => ""
  | Some (JNum n) => number_to_string n
  | _ => ""
  end.

(** What [querystring.stringify] writes for the key [k] of value [v]: an
    array gives one pair for each of its elements. *)
Definition pair (k : string) (v : option jsval) : string :=
  let ks := escape k +:+ "=" in
  match v with
  | Some (JArr l _) =>
      Str.join "&" (map (λ x, ks +:+ escape (stringifyPrimitive (Some x))) l)
  | _ => ks +:+ escape (stringifyPrimitive v)
  end.

(** [querystring.stringify(obj)] *)
Definition stringify (obj : list (string * option jsval)) : string :=
  Str.join "&" (map (λ kv, pair (fst kv) (snd kv)) obj).

(** [obj[k] = v] of [querystring.parse]: a key seen before collects its
    values in an array. *)
Definition add_field (k v : string) (obj : list (string * jsval)) : list (string * jsval) :=
  match lookup_prop k obj with
  | None => obj ++ [(k, JStr v)]
  | Some (JArr l ps) => set_prop k (JArr (l ++ [JStr v]) ps) obj
  | Some old => set_prop k (JArr [old; JStr v] []) obj
  end.

Definition maxKeys : nat := 1000.

(** [querystring.parse(qs)] *)
Definition parse (qs : string) : list (string * jsval) :=
  if String.eqb qs "" then []
  else
    fold_left
      (λ obj x,
         let x := plus_to_space x in
         let '(kstr, vstr) :=
           match Str.cut "=" x with
           | Some kv => kv
           | None => (x, EmptyString)
           end in
         add_field (unescape kstr) (unescape vstr) obj)
      (take maxKeys (Str.split "&" qs)) [].

End Querystring.

Module Url.

Definition is_scheme_char (c : ascii) : bool :=
  Str.is_alpha c || Str.is_digit c || bool_decide (c ∈ ["."; "+"; "-"]%char).

Fixpoint lowercase (s : string) : string :=
  match s with
  | EmptyString => EmptyString
  | String c r => String (Str.lower c) (lowercase r)
  end.

(** [url.parse(href).protocol]: the leading run of letters, digits, [.],
    [+] and [-] that a colon follows, in lower case with the colon;
    [null] ([None] here) without one. *)
Definition protocol (href : string) : option string :=
  let rest := Str.trim_left href in
  let p := Str.take_while is_scheme_char rest in
  match Str.drop_while is_scheme_char rest with
  | String ":" _ => if String.eqb p "" then None else Some (lowercase p +:+ ":")
  | _ => None
  end.

End Url.

Module Base64.

Definition alphabet : list ascii :=
  Str.to_list "ABCDEFGHIJKLMNOPQRSTUVWXYZabcdefghijklmnopqrstuvwxyz0123456789+/".

Definition sextet (z : Z) : ascii := nth (Z.to_nat z) alphabet "="%char.

Fixpoint encode_bytes (l : list ascii) : list ascii :=
  match l with
  | a :: b :: c :: r =>
      let n := Str.code a * 65536 + Str.code b * 256 + Str.code c in
      sextet (n / 262144) :: sextet ((n / 4096) mod 64) :: sextet ((n / 64) mod 64)
        :: sextet (n mod 64) :: encode_bytes r
  | [a; b] =>
      let n := Str.code a * 65536 + Str.code b * 256 in
      [sextet (n / 262144); sextet ((n / 4096) mod 64); sextet ((n / 64) mod 64); "="%char]
  | [a] =>
      let n := Str.code a * 65536 in
      [sextet (n / 262144); sextet ((n / 4096) mod 64); "="%char; "="%char]
  | [] => []
  end.

(** [new Buffer(s).toString('base64')] *)
Definition encode (s : string) : string := Str.of_list (encode_bytes (Str.to_list s)).

End Base64.

Module Underscore.

(** [_.contains(other, v)] where [other] holds strings only: [===] finds a
    string with the same characters. *)
Definition contains (other : list string) (v : jsval) : bool :=
  match v with
  | JStr s => bool_decide (s ∈ other)
  | _ => false
  end.

(** [_.difference(array, other)] *)
Definition difference (array : list jsval) (other : list string) : list jsval :=
  List.filter (λ v, negb (contains other v)) array.

End Underscore.

(** * The module *)

(** An [Error] object and the properties the module gives it. *)
Record Error := mkError {
  err_message : option jsval;
  err_statusCode : option Z;
  err_code : option jsval;
  err_errorCode : option jsval
}.

(** [new Error(msg)] *)
Definition new_Error (msg : string) : Error :=
  {| err_message := Some (JStr msg); err_statusCode := None;
     err_code := None; err_errorCode := None |}.

(** The variables of the caller's request context ([options.request]), set
    through [apigee.setVariable]. *)
Abbreviation context := (gmap string string).

(** What a response of the backend brings: the status line, the headers
    (lower-case names, string values), the chunks that [resp.read()] hands out
    at each ['readable'] event, and whether the stream ends with ['end']
    ([None]) or with an ['error'] event. *)
Record response := mkResponse {
  resp_statusCode : Z;
  resp_headers : list (string * string);
  resp_readable : list (list string);
  resp_failure : option Error
}.

(** What happens to a request that was handed to the transport: the request
    emits ['error'], or a response arrives. *)
Inductive backend :=
| TransportError (e : Error)
| Response (resp : response).

(** The options of an operation; a field that is not set is [undefined]. *)
Record options := mkOptions {
  clientId : option jsval;
  clientSecret : option jsval;
  scope : option jsval;
  tokenLifetime : option jsval;
  attributes : option jsval;
  username : option jsval;
  password : option jsval;
  code : option jsval;
  redirectUri : option jsval;
  state : option jsval;
  refreshToken : option jsval;
  token : option jsval;
  tokenTypeHint : option jsval;
  grantType : option jsval;
  request : option context
}.

Definition with_grantType (g : string) (o : options) : options :=
  mkOptions (clientId o) (clientSecret o) (scope o) (tokenLifetime o) (attributes o)
    (username o) (password o) (code o) (redirectUri o) (state o) (refreshToken o)
    (token o) (tokenTypeHint o) (Some (JStr g)) (request o).

(** [ApigeeRuntimeSpi]: the two settings of the instance. *)
Record spi := mkSpi { uri : string; key : string }.

(** The constructor: both settings are required. *)
Definition ApigeeRuntimeSpi (o_uri o_key : option string) : Error + spi :=
  match o_uri with
  | None | Some EmptyString => inl (new_Error "uri parameter must be specified")
  | Some u =>
      match o_key with
      | None | Some EmptyString => inl (new_Error "key parameter must be specified")
      | Some k => inr (mkSpi u k)
      end
  end.

(** How the completion callback [cb] is reached.  A function of the module
    that takes [cb] is embedded as a function that returns this: [Invoked err
    result] is the call [cb(err, result)] (an argument left out is
    [undefined]), [Uncaught e] an exception that leaves the event handler
    before any call of [cb]. *)
Inductive completion :=
| Invoked (err : option Error) (result : option jsval)
| Uncaught (e : exn).

Inductive transport := http | https.

(** The request handed to [http.request] or [https.request]. *)
Record wire := mkWire {
  via : transport;
  href : string;
  method : string;
  headers : list (string * jsval);
  payload : option string
}.

(** The observable outcome of an operation: the request put on the network
    (if any), the caller's request context afterwards, and the call of the
    completion callback. *)
Record outcome := mkOutcome {
  sent : option wire;
  vars : option context;
  done : completion
}.

Definition header (name : string) (hs : list (string * string)) : option string :=
  snd <$> List.find (λ kv, String.eqb (fst kv) name) hs.

(** The body of the loop of [setFlowVariables], for the header name [key]. *)
Definition publish (hs : list (string * string)) (ctx : context) (key : string) : context :=
  if Str.starts_with "x-v." key then
    let varName := Str.drop 4 key in
    match header key hs with
    | Some v => if String.eqb v "" then ctx else <[varName := v]> ctx
    | None => ctx
    end
  else ctx.

(** [setFlowVariables(req, resp)] *)
Definition setFlowVariables (req : option context) (resp : response) : option context :=
  match req with
  | None => None
  | Some ctx =>
      Some (fold_left (publish (resp_headers resp)) (map fst (resp_headers resp)) ctx)
  end.

(** [readResponse(resp, data)]: the chunks at hand appended to [data]. *)
Definition readResponse (chunks : list string) (data : string) : string :=
  fold_left (λ data d, data +:+ d) chunks data.

(** The value of [respData] when ['end'] fires. *)
Definition respData (resp : response) : string :=
  fold_left (λ data chunks, readResponse chunks data) (resp_readable resp) "".

Definition http_error (resp : response) (msg : option jsval) (c : option jsval) : Error :=
  {| err_message := msg; err_statusCode := Some (resp_statusCode resp);
     err_code := c; err_errorCode := None |}.

(** The body of the [try] block of [requestComplete]. *)
Definition decode_token (data : string) (options : options) : throws jsval :=
  json ← JSON.parse data;
  expires_in ← get "expires_in" json;
  json ← (if truthy_opt expires_in
          then set "expires_in" (JNum (parseInt (default JNull expires_in))) json
          else Ret json);
  json ← (if truthy_opt (grantType options)
          then set "token_type" (default JNull (grantType options)) json
          else Ret json);
  attrs ← get "attributes" json;
  if truthy_opt attrs
  then a ← JSON.parse (to_string_opt attrs); set "attributes" a json
  else Ret json.

(** The 400 and 401 branch of [requestComplete]. *)
Definition decode_oauth_error (resp : response) (data : string) : throws Error :=
  ret ← JSON.parse data;
  ErrorCode ← get "ErrorCode" ret;
  match ErrorCode with
  | Some JNull => Ret (http_error resp (Some (JStr "Error on HTTP request")) None)
  | _ => Error ← get "Error" ret; Ret (http_error resp Error ErrorCode)
  end.

(** [requestComplete(resp, options, cb)] *)
Definition requestComplete (resp : response) (options : options) : completion :=
  match resp_failure resp with
  | Some err => Invoked (Some err) None
  | None =>
      let respData := respData resp in
      if 300 <=? resp_statusCode resp then
        if (resp_statusCode resp =? 400) || (resp_statusCode resp =? 401) then
          match decode_oauth_error resp respData with
          | Ret err => Invoked (Some err) None
          | Throw e => Uncaught e
          end
        else Invoked (Some (http_error resp (Some (JStr respData)) None)) None
      else
        match decode_token respData options with
        | Ret json => Invoked None (Some json)
        | Throw _ => Invoked None None
        end
  end.

(** [getRequestComplete(resp, options, cb)] *)
Definition getRequestComplete (resp : response) (options : options) : completion :=
  match resp_failure resp with
  | Some err => Invoked (Some err) None
  | None =>
      let respData := respData resp in
      if negb (resp_statusCode resp =? 302) then
        Invoked (Some (http_error resp (Some (JStr respData)) None)) None
      else Invoked None (JStr <$> header "location" (resp_headers resp))
  end.

(** [v.split(' ')]: only a string has the method. *)
Definition split_spaces (v : option jsval) : throws (list string) :=
  match v with
  | Some (JStr s) => Ret (Str.split " " s)
  | _ => Throw TypeError
  end.

(** The scopes that [verifyRequestComplete] requires, from the argument
    [requiredScopes]: an array as it is, anything else split at spaces when
    truthy. *)
Definition required_scopes (requiredScopes : option jsval) : throws (list jsval) :=
  match requiredScopes with
  | Some (JArr l _) => Ret l
  | _ =>
      if truthy_opt requiredScopes
      then l ← split_spaces requiredScopes; Ret (map JStr l)
      else Ret []
  end.

Definition granted_scopes (parsed : list (string * jsval)) : throws (list string) :=
  if truthy_opt (lookup_prop "scope" parsed)
  then split_spaces (lookup_prop "scope" parsed)
  else Ret [].

Definition invalid_scope : Error :=
  {| err_message := Some (JStr "invalid_scope"); err_statusCode := None;
     err_code := None; err_errorCode := Some (JStr "invalid_scope") |}.

(** The 200 branch of [verifyRequestComplete]. *)
Definition check_scopes (data : string) (requiredScopes : option jsval)
  : throws (Error + list (string * jsval)) :=
  let parsed := Querystring.parse data in
  required ← required_scopes requiredScopes;
  granted ← granted_scopes parsed;
  if negb (length (Underscore.difference required granted) =? 0)%nat then Ret (inl invalid_scope)
  else if truthy_opt (lookup_prop "attributes" parsed) then
    a ← JSON.parse (to_string_opt (lookup_prop "attributes" parsed));
    Ret (inr (set_prop "attributes" a parsed))
  else Ret (inr parsed).

(** [verifyRequestComplete(resp, requiredScopes, cb)] with a callback. *)
Definition verifyRequestComplete (resp : response) (requiredScopes : option jsval) : completion :=
  match resp_failure resp with
  | Some err => Invoked (Some err) None
  | None =>
      let respData := respData resp in
      if negb (resp_statusCode resp =? 200) then
        Invoked (Some (http_error resp (Some (JStr respData)) None)) None
      else
        match check_scopes respData requiredScopes with
        | Ret (inl err) => Invoked (Some err) None
        | Ret (inr parsed) => Invoked None (Some (JObj parsed))
        | Throw e => Uncaught e
        end
  end.

(** ** The dispatcher *)

Definition unsupported_protocol (p : option string) : Error :=
  new_Error ("Unsupported protocol " +:+ match p with Some p => p | None => "null" end).

(** The choice of [requestor] from [r.protocol]. *)
Definition requestor (protocol : option string) : option transport :=
  match protocol with
  | Some p => if String.eqb p "http:" then Some http
              else if String.eqb p "https:" then Some https
              else None
  | None => None
  end.

Definition opt_header (name : string) (v : option jsval) (value : jsval) : list (string * jsval) :=
  if truthy_opt v then [(name, value)] else [].

(** [makeRequest(self, verb, uriPath, body, options, cb)], called with an
    options object, against a backend that behaves as [net]. *)
Definition makeRequest (self : spi) (verb uriPath body : string) (options : options)
    (net : backend) : outcome :=
  let finalUri := uri self +:+ uriPath in
  let headers :=
    [("Authorization",
      JStr ("Basic " +:+ Base64.encode (to_string_opt (clientId options) +:+ ":" +:+
                                        to_string_opt (clientSecret options))));
     ("x-DNA-Api-Key", JStr (key self))]
    ++ opt_header "x-DNA-Token-Lifetime" (tokenLifetime options)
         (default JNull (tokenLifetime options))
    ++ opt_header "x-DNA-Token-Attributes" (attributes options)
         (JStr (JSON.stringify (default JNull (attributes options))))
    ++ (if String.eqb body "" then []
        else [("Content-Type", JStr "application/x-www-form-urlencoded")]) in
  match requestor (Url.protocol finalUri) with
  | None =>
      {| sent := None; vars := request options;
         done := Invoked (Some (unsupported_protocol (Url.protocol finalUri))) None |}
  | Some t =>
      let r := {| via := t; href := finalUri; method := verb; headers := headers;
                  payload := if String.eqb body "" then None else Some body |} in
      match net with
      | TransportError err =>
          {| sent := Some r; vars := request options; done := Invoked (Some err) None |}
      | Response resp =>
          match requestComplete resp options with
          | Invoked err result =>
              {| sent := Some r; vars := setFlowVariables (request options) resp;
                 done := Invoked err result |}
          | Uncaught e => {| sent := Some r; vars := request options; done := Uncaught e |}
          end
      end
  end.

(** [makeGetRequest(self, uriPath, qs, options, cb)] *)
Definition makeGetRequest (self : spi) (uriPath qs : string) (options : options)
    (net : backend) : outcome :=
  let finalUri := uri self +:+ uriPath +:+ "?" +:+ qs in
  match requestor (Url.protocol finalUri) with
  | None =>
      {| sent := None; vars := request options;
         done := Invoked (Some (unsupported_protocol (Url.protocol finalUri))) None |}
  | Some t =>
      let r := {| via := t; href := finalUri; method := "GET";
                  headers := [("x-DNA-Api-Key", JStr (key self))]; payload := None |} in
      match net with
      | TransportError err =>
          {| sent := Some r; vars := request options; done := Invoked (Some err) None |}
      | Response resp =>
          match getRequestComplete resp options with
          | Invoked err result =>
              {| sent := Some r; vars := setFlowVariables (request options) resp;
                 done := Invoked err result |}
          | Uncaught e => {| sent := Some r; vars := request options; done := Uncaught e |}
          end
      end
  end.

(** ** The operations *)

(** [if (v) { qs.k = v; }] *)
Definition when_set (k : string) (v : option jsval) : list (string * option jsval) :=
  if truthy_opt v then [(k, v)] else [].

(** The [qs] object of [createTokenClientCredentials]. *)
Definition client_credentials_qs (options : options) : list (string * option jsval) :=
  [("grant_type", Some (JStr "client_credentials"))]
  ++ when_set "attributes" (attributes options)
  ++ when_set "scope" (scope options).

Definition createTokenClientCredentials (self : spi) (options : options) (net : backend)
    : outcome :=
  let qs := client_credentials_qs options in
  let body := Querystring.stringify qs in
  makeRequest self "POST" "/tokentypes/client/tokens" body
    (with_grantType "client_credentials" options) net.

Definition createTokenPasswordCredentials (self : spi) (options : options) (net : backend)
    : outcome :=
  let qs := [("grant_type", Some (JStr "password"));
             ("username", username options); ("password", password options)]
            ++ when_set "attributes" (attributes options)
            ++ when_set "scope" (scope options) in
  let body := Querystring.stringify qs in
  makeRequest self "POST" "/tokentypes/password/tokens" body
    (with_grantType "password" options) net.

(** [/^Invalid redirect_uri :/.test(msg)] *)
Definition invalid_redirect_uri (msg : option jsval) : bool :=
  Str.starts_with "Invalid redirect_uri :" (to_string_opt msg).

(** The messages that [createTokenAuthorizationCode] turns into
    [invalid_grant]. *)
Definition grant_message (msg : option jsval) : bool :=
  is_string "Invalid Authorization Code" msg
  || is_string "Required param : redirect_uri" msg
  || invalid_redirect_uri msg.

Definition with_code (c : string) (err : Error) : Error :=
  {| err_message := err_message err; err_statusCode := err_statusCode err;
     err_code := Some (JStr c); err_errorCode := err_errorCode err |}.

(** The callback that [createTokenAuthorizationCode] hands to [makeRequest]. *)
Definition remap_grant (c : completion) : completion :=
  match c with
  | Invoked (Some err) result =>
      if is_string "Invalid Authorization Code" (err_message err)
         || is_string "Required param : redirect_uri" (err_message err)
      then Invoked (Some (with_code "invalid_grant" err)) result
      else if invalid_redirect_uri (err_message err)
      then Invoked (Some (with_code "invalid_grant" err)) result
      else Invoked (Some err) result
  | _ => c
  end.

Definition with_done (f : completion → completion) (o : outcome) : outcome :=
  {| sent := sent o; vars := vars o; done := f (done o) |}.

(** The call of [makeRequest] by [createTokenAuthorizationCode], before its
    callback runs. *)
Definition authorization_code_request (self : spi) (options : options) (net : backend)
    : outcome :=
  let qs := [("grant_type", Some (JStr "authorization_code")); ("code", code options)]
            ++ when_set "redirect_uri" (redirectUri options)
            ++ when_set "client_id" (clientId options) in
  let body := Querystring.stringify qs in
  makeRequest self "POST" "/tokentypes/authcode/tokens" body
    (with_grantType "authorization_code" options) net.

Definition createTokenAuthorizationCode (self : spi) (options : options) (net : backend)
    : outcome :=
  with_done remap_grant (authorization_code_request self options net).

Definition generateAuthorizationCode (self : spi) (options : options) (net : backend)
    : outcome :=
  let qs := [("response_type", Some (JStr "code")); ("client_id", clientId options)]
            ++ when_set "redirect_uri" (redirectUri options)
            ++ when_set "scope" (scope options)
            ++ when_set "state" (state options) in
  makeGetRequest self "/tokentypes/authcode/authcodes" (Querystring.stringify qs) options net.

Definition createTokenImplicitGrant (self : spi) (options : options) (net : backend)
    : outcome :=
  let qs := [("response_type", Some (JStr "token")); ("client_id", clientId options)]
            ++ when_set "attributes" (attributes options)
            ++ when_set "redirect_uri" (redirectUri options)
            ++ when_set "scope" (scope options)
            ++ when_set "state" (state options) in
  makeGetRequest self "/tokentypes/implicit/tokens" (Querystring.stringify qs) options net.

(** The callback that [refreshToken] hands to [makeRequest]. *)
Definition remap_scope (c : completion) : completion :=
  match c with
  | Invoked (Some err) result =>
      if is_string "Invalid Scope" (err_message err)
      then Invoked (Some (with_code "invalid_scope" err)) result
      else Invoked (Some err) result
  | _ => c
  end.

(** The call of [makeRequest] by [refreshToken], before its callback runs. *)
Definition refresh_request (self : spi) (options : options) (net : backend) : outcome :=
  let qs := [("grant_type", Some (JStr "refresh_token"));
             ("refresh_token", refreshToken options)]
            ++ when_set "scope" (scope options) in
  let body := Querystring.stringify qs in
  makeRequest self "POST" "/tokentypes/all/refresh" body
    (with_grantType "refresh_token" options) net.

(** The operation [refreshToken] (the name is taken by the option). *)
Definition refreshToken_ (self : spi) (options : options) (net : backend) : outcome :=
  with_done remap_scope (refresh_request self options net).

Definition invalidateToken (self : spi) (options : options) (net : backend) : outcome :=
  let qs := [("token", token options)] ++ when_set "tokenTypeHint" (tokenTypeHint options) in
  let body := Querystring.stringify qs in
  makeRequest self "POST" "/tokentypes/all/invalidate" body options net.

(** The [urlString] of [verifyToken]. *)
Definition href_of_verify (self : spi) (requiredScopes : option jsval) : string :=
  uri self +:+ "/tokentypes/all/verify" +:+
  (if truthy_opt requiredScopes
   then "?" +:+ Querystring.stringify [("scope", requiredScopes)]
   else "").

(** [verifyToken(token, requiredScopes, cb)]; it has no request context. *)
Definition verifyToken (self : spi) (token : option jsval) (requiredScopes : option jsval)
    (net : backend) : outcome :=
  let urlString := href_of_verify self requiredScopes in
  match requestor (Url.protocol urlString) with
  | None =>
      {| sent := None; vars := None;
         done := Invoked (Some (unsupported_protocol (Url.protocol urlString))) None |}
  | Some t =>
      let r := {| via := t; href := urlString; method := "GET";
                  headers := [("Authorization", JStr ("Bearer " +:+ to_string_opt token));
                              ("x-DNA-Api-Key", JStr (key self))];
                  payload := None |} in
      {| sent := Some r; vars := None;
         done := match net with
                 | TransportError err => Invoked (Some err) None
                 | Response resp => verifyRequestComplete resp requiredScopes
                 end |}
  end.

(** The seven operations of the SPI, and a run of one of them. *)
Inductive operation :=
| CreateTokenClientCredentials (o : options)
| CreateTokenPasswordCredentials (o : options)
| CreateTokenAuthorizationCode (o : options)
| GenerateAuthorizationCode (o : options)
| CreateTokenImplicitGrant (o : options)
| RefreshToken (o : options)
| InvalidateToken (o : options)
| VerifyToken (token : option jsval) (requiredScopes : option jsval).

Definition run (self : spi) (op : operation) (net : backend) : outcome :=
  match op with
  | CreateTokenClientCredentials o => createTokenClientCredentials self o net
  | CreateTokenPasswordCredentials o => createTokenPasswordCredentials self o net
  | CreateTokenAuthorizationCode o => createTokenAuthorizationCode self o net
  | GenerateAuthorizationCode o => generateAuthorizationCode self o net
  | CreateTokenImplicitGrant o => createTokenImplicitGrant self o net
  | RefreshToken o => refreshToken_ self o net
  | InvalidateToken o => invalidateToken self o net
  | VerifyToken t s => verifyToken self t s net
  end.

(** * Predicates and inputs of the properties *)

(** A numeric string: an optional sign, one decimal digit or more, and
    possibly a point with further digits. *)
Definition numeric_string (s : string) : bool :=
  let body := snd (Str.strip_sign s) in
  negb (String.eqb (Str.take_while Str.is_digit body) "")
  && match Str.drop_while Str.is_digit body with
     | EmptyString => true
     | String c fr => bool_decide (c = "."%char) && Str.all Str.is_digit fr
     end.

(** The granted scopes, from the [scope] field of the parsed body when it
    appears at most once. *)
Definition granted_of (scope_field : option string) : list string :=
  match scope_field with
  | Some s => if String.eqb s "" then [] else Str.split " " s
  | None => []
  end.

(** Concrete inputs for the checks below. *)
Definition example_spi : spi := mkSpi "https://api.example.com/oauth" "k3y".

Definition example_options : options :=
  mkOptions (Some (JStr "id")) (Some (JStr "secret")) (Some (JStr "read write")) None
    (Some (JObj [("tier", JStr "gold")])) None None (Some (JStr "c0de")) None None
    (Some (JStr "r3fresh")) (Some (JStr "t0ken")) None None (Some ∅).

Definition reply (status : Z) (hs : list (string * string)) (body : string) : response :=
  mkResponse status hs [[body]] None.

(** Whether a call of the callback has both an error and a result. *)
Definition both_populated (c : completion) : bool :=
  match c with
  | Invoked (Some _) (Some _) => true
  | _ => false
  end.

(** The request context an operation works on: [options.request];
    [verifyToken] takes none. *)
Definition context_of (op : operation) : option context :=
  match op with
  | CreateTokenClientCredentials o | CreateTokenPasswordCredentials o
  | CreateTokenAuthorizationCode o | GenerateAuthorizationCode o
  | CreateTokenImplicitGrant o | RefreshToken o | InvalidateToken o => request o
  | VerifyToken _ _ => None
  end.

(** The whole body of a response: its chunks, one after the other. *)
Definition body_of (resp : response) : string :=
  fold_right String.append "" (concat (resp_readable resp)).

(** The same response, ignoring how its body is cut into chunks. *)
Definition same_response (r1 r2 : response) : Prop :=
  resp_statusCode r1 = resp_statusCode r2
  ∧ resp_headers r1 = resp_headers r2
  ∧ resp_failure r1 = resp_failure r2
  ∧ body_of r1 = body_of r2.

(** The value of a character of the base64 alphabet. *)
Definition unsextet (c : ascii) : option Z :=
  (λ i, Z.of_nat (fst i)) <$> list_find (λ x, x = c) Base64.alphabet.

(** Base64 decoding of whole groups of four characters; [=] pads the last
    group. *)
Fixpoint base64_decode_bytes (l : list ascii) : option (list ascii) :=
  match l with
  | [] => Some []
  | a :: b :: c :: d :: r =>
      match unsextet a, unsextet b with
      | Some x, Some y =>
          if bool_decide (d = "="%char) && bool_decide (r = []) then
            if bool_decide (c = "="%char) then Some [Str.chr (x * 4 + y / 16)]
            else match unsextet c with
                 | Some z => Some [Str.chr (x * 4 + y / 16);
                                   Str.chr ((y mod 16) * 16 + z / 4)]
                 | None => None
                 end
          else
            match unsextet c, unsextet d, base64_decode_bytes r with
            | Some z, Some w, Some rest =>
                Some (Str.chr (x * 4 + y / 16) :: Str.chr ((y mod 16) * 16 + z / 4)
                        :: Str.chr ((z mod 4) * 64 + w) :: rest)
            | _, _, _ => None
            end
      | _, _ => None
      end
  | _ => None
  end.

Definition base64_decode (s : string) : option string :=
  Str.of_list <$> base64_decode_bytes (Str.to_list s).

(** The fields of a query string whose values are strings. *)
Definition string_fields (fields : list (string * string)) : list (string * option jsval) :=
  map (λ kv, (fst kv, Some (JStr (snd kv)))) fields.

Definition parsed_fields (fields : list (string * string)) : list (string * jsval) :=
  map (λ kv, (fst kv, JStr (snd kv))) fields.

(** The options of the operations that go through [makeRequest]. *)
Definition post_options (op : operation) : option options :=
  match op with
  | CreateTokenClientCredentials o | CreateTokenPasswordCredentials o
  | CreateTokenAuthorizationCode o | RefreshToken o | InvalidateToken o => Some o
  | GenerateAuthorizationCode _ | CreateTokenImplicitGrant _ | VerifyToken _ _ => None
  end.

(** An optional field of a request: there when the option is a string that
    is not empty. *)
Definition opt_field (k : string) (v : option string) : list (string * string) :=
  match v with
  | Some s => if String.eqb s "" then [] else [(k, s)]
  | None => []
  end.

(** The characters that [querystring.escape] writes. *)
Definition escaped_char (c : ascii) : bool :=
  Querystring.unreserved c || bool_decide (c = "%"%char).

Definition field_char (c : ascii) : bool :=
  escaped_char c || bool_decide (c = "="%char).

(** The characters that are not the separator of path segments. *)
Definition not_slash (c : ascii) : bool := negb (bool_decide (c = "/"%char)).

(** * Checks of the runtime model on concrete inputs *)

Example number_to_string_ex :
  map number_to_string [Fin 3600 0; Fin 15 (-1); Fin (-5) (-7); Fin 1 21; Fin 12 20; Fin 0 5; Fin 120 (-3)]
  = ["3600"; "1.5"; "-5e-7"; "1e+21"; "1.2e+21"; "0"; "0.12"].
Proof. vm_compute. reflexivity. Qed.

Example parseInt_ex :
  map parseInt [JStr "3600"; JStr "  -42abc"; JStr "abc"; JNum (Fin 15 (-1)); JStr ""; JArr [JStr "7"] []]
  = [Fin 3600 0; Fin (-42) 0; NaN; Fin 1 0; NaN; Fin 7 0].
Proof. vm_compute. reflexivity. Qed.

Example JSON_parse_ex1 :
  JSON.parse (Str.q "{'access_token':'abc', 'expires_in' : '3600', 'n':[1,-2.50e1,null,true]}")
  = Ret (JObj [("access_token", JStr "abc"); ("expires_in", JStr "3600");
               ("n", JArr [JNum (Fin 1 0); JNum (Fin (-250) (-1)); JNull; JBool true] [])]).
Proof. vm_compute. reflexivity. Qed.

Example JSON_parse_ex2 :
  map JSON.parse [""; "not json"; Str.q "{'a':1,}"; "01"; "{} x"; "[1 2]"; Str.q "'a" ; "tru"]
  = repeat (Throw SyntaxError) 8.
Proof. vm_compute. reflexivity. Qed.

Example JSON_parse_ex3 :
  map JSON.parse [" null "; "5"; Str.q "'aA\n\u00e9'"; Str.q "{'a':1,'b':2,'a':3}"; "[]"; "-0"]
  = [Ret JNull; Ret (JNum (Fin 5 0)); Ret (JStr ("aA" +:+ Str.of_list [Str.chr 10; Str.chr 195; Str.chr 169]));
     Ret (JObj [("a", JNum (Fin 3 0)); ("b", JNum (Fin 2 0))]); Ret (JArr [] []);
     Ret (JNum (Fin 0 0))].
Proof. vm_compute. reflexivity. Qed.

Example JSON_stringify_ex :
  JSON.stringify (JObj [("a", JStr (Str.q "b'c")); ("n", JArr [JNum (Fin 15 (-1)); JNull] [])])
  = Str.q "{'a':'b\'c','n':[1.5,null]}".
Proof. vm_compute. reflexivity. Qed.

Example querystring_ex :
  Querystring.stringify [("grant_type", Some (JStr "client_credentials"));
                         ("scope", Some (JStr "read write")); ("u", None);
                         ("a", Some (JArr [JStr "x"; JStr "y/z"] [])); ("o", Some (JObj []))]
  = "grant_type=client_credentials&scope=read%20write&u=&a=x&a=y%2Fz&o=".
Proof. vm_compute. reflexivity. Qed.

Example querystring_parse_ex :
  Querystring.parse "scope=read+write%20admin&a=1&a=2&b&c=%zz&a=3"
  = [("scope", JStr "read write admin");
     ("a", JArr [JStr "1"; JStr "2"; JStr "3"] []); ("b", JStr ""); ("c", JStr "%zz")].
Proof. vm_compute. reflexivity. Qed.

Example url_protocol_ex :
  map Url.protocol ["http://a.b/c"; "HTTPS://x"; "ftp://files"; "localhost:8080/x"; "/path"; ""; " http://a"]
  = [Some "http:"; Some "https:"; Some "ftp:"; Some "localhost:"; None; None; Some "http:"].
Proof. vm_compute. reflexivity. Qed.

Example base64_ex :
  map Base64.encode ["id:secret"; "a"; "ab"; "abc"; ""]
  = ["aWQ6c2VjcmV0"; "YQ=="; "YWI="; "YWJj"; ""].
Proof. vm_compute. reflexivity. Qed.

Example redirect_ex :
  getRequestComplete (reply 302 [("location", "https://cb?code=1")] "") example_options
  = Invoked None (Some (JStr "https://cb?code=1"))
  ∧ getRequestComplete (reply 200 [] "page") example_options
    = Invoked (Some (mkError (Some (JStr "page")) (Some 200) None None)) None.
Proof. vm_compute. split; reflexivity. Qed.

Example token_ex :
  createTokenClientCredentials example_spi example_options
    (Response (reply 200 [("x-v.sessionId", "abc123")]
                 (Str.q "{'access_token':'tok','expires_in':'3599','token_type':'Bearer'}")))
  = {| sent := Some {| via := https;
                       href := "https://api.example.com/oauth/tokentypes/client/tokens";
                       method := "POST";
                       headers :=
                         [("Authorization", JStr "Basic aWQ6c2VjcmV0");
                          ("x-DNA-Api-Key", JStr "k3y");
                          ("x-DNA-Token-Attributes", JStr (Str.q "{'tier':'gold'}"));
                          ("Content-Type", JStr "application/x-www-form-urlencoded")];
                       payload :=
                         Some "grant_type=client_credentials&attributes=&scope=read%20write" |};
       vars := Some {[ "sessionId" := "abc123" ]};
       done := Invoked None
                 (Some (JObj [("access_token", JStr "tok");
                              ("expires_in", JNum (Fin 3599 0));
                              ("token_type", JStr "client_credentials")])) |}.
Proof. vm_compute. reflexivity. Qed.

(** Exceptions that leave the handlers: the callback is not reached. *)
Example uncaught_ex :
  requestComplete (reply 400 [] "Bad Request") example_options = Uncaught SyntaxError
  ∧ requestComplete (reply 401 [] "null") example_options = Uncaught TypeError
  ∧ verifyRequestComplete (reply 200 [] "attributes=oops") None = Uncaught SyntaxError
  ∧ verifyRequestComplete (reply 200 [] "scope=a&scope=b") None = Uncaught TypeError.
Proof. vm_compute. repeat split; reflexivity. Qed.

(** * Properties *)

(** ** The token-response interpreter *)

Section TokenResponse.

Variables (resp : response) (options : options).
Hypothesis ended : resp_failure resp = None.

Lemma requestComplete_success :
  resp_statusCode resp < 300 →
  requestComplete resp options =
    match decode_token (respData resp) options with
    | Ret json => Invoked None (Some json)
    | Throw _ => Invoked None None
    end.
Proof.
  intros Hlt. unfold requestComplete. rewrite ended.
  destruct (Z.leb_spec 300 (resp_statusCode resp)); [lia | reflexivity].
Qed.

Lemma requestComplete_oauth_error :
  resp_statusCode resp = 400 ∨ resp_statusCode resp = 401 →
  requestComplete resp options =
    match decode_oauth_error resp (respData resp) with
    | Ret err => Invoked (Some err) None
    | Throw e => Uncaught e
    end.
Proof.
  intros Hst. unfold requestComplete. rewrite ended.
  destruct (Z.leb_spec 300 (resp_statusCode resp)); [| lia].
  destruct Hst as [-> | ->]; reflexivity.
Qed.

Lemma requestComplete_other_error :
  300 ≤ resp_statusCode resp → resp_statusCode resp ≠ 400 → resp_statusCode resp ≠ 401 →
  requestComplete resp options =
    Invoked (Some (http_error resp (Some (JStr (respData resp))) None)) None.
Proof.
  intros Hge H400 H401. unfold requestComplete. rewrite ended.
  destruct (Z.leb_spec 300 (resp_statusCode resp)); [| lia].
  destruct (Z.eqb_spec (resp_statusCode resp) 400); [done |].
  destruct (Z.eqb_spec (resp_statusCode resp) 401); done.
Qed.

(** C3. A response with a status below 300 whose body is not JSON makes
    the interpreter call back with no error and no result. *)
Theorem requestComplete_malformed_success (e : exn) :
  resp_statusCode resp < 300 →
  JSON.parse (respData resp) = Throw e →
  requestComplete resp options = Invoked None None.
Proof.
  intros Hlt Hparse. rewrite requestComplete_success by done.
  unfold decode_token. rewrite Hparse. reflexivity.
Qed.

(** C6 (amended). On 400 or 401 with a body that decodes as JSON (not to
    [null]): unless [ErrorCode] is [null], the error has the status, code
    [ErrorCode] and message [Error]; with a [null] [ErrorCode] it has the
    status and the generic message, no code.  On any other status from 300
    on the error has the status and the raw body as message, no code. *)
Theorem requestComplete_error_shape :
  (∀ ret ErrorCode Error,
     resp_statusCode resp = 400 ∨ resp_statusCode resp = 401 →
     JSON.parse (respData resp) = Ret ret →
     get "ErrorCode" ret = Ret ErrorCode →
     get "Error" ret = Ret Error →
     requestComplete resp options =
       Invoked (Some (match ErrorCode with
                      | Some JNull =>
                          http_error resp (Some (JStr "Error on HTTP request")) None
                      | _ => http_error resp Error ErrorCode
                      end)) None)
  ∧ (300 ≤ resp_statusCode resp →
     resp_statusCode resp ≠ 400 → resp_statusCode resp ≠ 401 →
     requestComplete resp options =
       Invoked (Some (http_error resp (Some (JStr (respData resp))) None)) None).
Proof.
  split.
  - intros ret ErrorCode Error Hst Hparse Hcode Herr.
    rewrite requestComplete_oauth_error by done.
    unfold decode_oauth_error. rewrite Hparse. simpl. rewrite Hcode. simpl.
    destruct ErrorCode as [[]|]; try reflexivity; rewrite Herr; reflexivity.
  - apply requestComplete_other_error.
Qed.

End TokenResponse.

Lemma requestComplete_malformed_success_witness :
  let resp := reply 200 [] "<html>ok</html>" in
  resp_failure resp = None ∧ resp_statusCode resp < 300
  ∧ JSON.parse (respData resp) = Throw SyntaxError
  ∧ requestComplete resp example_options = Invoked None None.
Proof.
  intros resp. split; [reflexivity |]. split; [reflexivity |]. split; [reflexivity |].
  apply (requestComplete_malformed_success (reply 200 [] "<html>ok</html>")
           example_options eq_refl SyntaxError); reflexivity.
Defined.

Lemma requestComplete_error_shape_witness :
  requestComplete
    (reply 401 [] (Str.q "{'ErrorCode':'invalid_client','Error':'Bad secret'}"))
    example_options
  = Invoked (Some {| err_message := Some (JStr "Bad secret"); err_statusCode := Some 401;
                     err_code := Some (JStr "invalid_client"); err_errorCode := None |}) None
  ∧ requestComplete (reply 503 [] "Service Unavailable") example_options
    = Invoked (Some {| err_message := Some (JStr "Service Unavailable");
                       err_statusCode := Some 503;
                       err_code := None; err_errorCode := None |}) None.
Proof.
  split.
  - apply (proj1 (requestComplete_error_shape
                    (reply 401 [] (Str.q "{'ErrorCode':'invalid_client','Error':'Bad secret'}"))
                    example_options eq_refl)
             (JObj [("ErrorCode", JStr "invalid_client"); ("Error", JStr "Bad secret")])
             (Some (JStr "invalid_client")) (Some (JStr "Bad secret")));
      [right; reflexivity | vm_compute; reflexivity | reflexivity | reflexivity].
  - apply (proj2 (requestComplete_error_shape (reply 503 [] "Service Unavailable")
                    example_options eq_refl)); simpl; lia.
Defined.

(** C6 as stated fails: on a 400 whose JSON body has neither field, the
    error does not carry the raw body; its message is [undefined]. *)
Lemma requestComplete_error_shape_counterexample :
  let resp := reply 400 [] "{}" in
  JSON.parse (respData resp) = Ret (JObj [])
  ∧ requestComplete resp example_options
    = Invoked (Some {| err_message := None; err_statusCode := Some 400;
                       err_code := None; err_errorCode := None |}) None
  ∧ requestComplete resp example_options
    ≠ Invoked (Some (http_error resp (Some (JStr (respData resp))) None)) None.
Proof. vm_compute. repeat split; discriminate. Qed.

(** ** Remapping of error codes *)

Lemma both_populated_requestComplete resp options :
  both_populated (requestComplete resp options) = false.
Proof.
  unfold requestComplete.
  destruct (resp_failure resp); [reflexivity |].
  destruct (300 <=? resp_statusCode resp).
  - destruct (_ || _); [| reflexivity].
    destruct (decode_oauth_error _ _); reflexivity.
  - destruct (decode_token _ _); reflexivity.
Qed.

Lemma both_populated_getRequestComplete resp options :
  both_populated (getRequestComplete resp options) = false.
Proof.
  unfold getRequestComplete.
  destruct (resp_failure resp); [reflexivity |].
  destruct (negb _); reflexivity.
Qed.

Lemma both_populated_verifyRequestComplete resp requiredScopes :
  both_populated (verifyRequestComplete resp requiredScopes) = false.
Proof.
  unfold verifyRequestComplete.
  destruct (resp_failure resp); [reflexivity |].
  destruct (negb _); [reflexivity |].
  destruct (check_scopes _ _) as [[|]|]; reflexivity.
Qed.

Lemma both_populated_makeRequest self verb uriPath body options net :
  both_populated (done (makeRequest self verb uriPath body options net)) = false.
Proof.
  unfold makeRequest. destruct (requestor _); [| reflexivity].
  destruct net as [err | resp]; [reflexivity |].
  pose proof (both_populated_requestComplete resp options) as H.
  destruct (requestComplete resp options); exact H.
Qed.

Lemma both_populated_makeGetRequest self uriPath qs options net :
  both_populated (done (makeGetRequest self uriPath qs options net)) = false.
Proof.
  unfold makeGetRequest. destruct (requestor _); [| reflexivity].
  destruct net as [err | resp]; [reflexivity |].
  pose proof (both_populated_getRequestComplete resp options) as H.
  destruct (getRequestComplete resp options); exact H.
Qed.

Lemma both_populated_remap_grant c :
  both_populated (remap_grant c) = both_populated c.
Proof.
  destruct c as [[err|] result|]; try reflexivity. simpl.
  destruct (_ || _); [reflexivity |].
  destruct (invalid_redirect_uri _); reflexivity.
Qed.

Lemma both_populated_remap_scope c :
  both_populated (remap_scope c) = both_populated c.
Proof.
  destruct c as [[err|] result|]; try reflexivity. simpl.
  destruct (is_string _ _); reflexivity.
Qed.

(** C2 (amended). Whatever the operation and the behaviour of the backend,
    the completion callback is never called with both an error and a
    result. *)
Theorem callback_never_both (self : spi) (op : operation) (net : backend) :
  both_populated (done (run self op net)) = false.
Proof.
  destruct op; simpl;
    try apply both_populated_makeRequest; try apply both_populated_makeGetRequest.
  - unfold createTokenAuthorizationCode. simpl.
    rewrite both_populated_remap_grant. apply both_populated_makeRequest.
  - unfold refreshToken_. simpl.
    rewrite both_populated_remap_scope. apply both_populated_makeRequest.
  - unfold verifyToken. destruct (requestor _); [| reflexivity]. simpl.
    destruct net; [reflexivity | apply both_populated_verifyRequestComplete].
Qed.

(** C2 as stated fails: revoking a token against a backend that answers 200
    with an empty body calls back with neither an error nor a result. *)
Lemma callback_exactly_one_counterexample :
  done (run example_spi (InvalidateToken example_options) (Response (reply 200 [] "")))
  = Invoked None None.
Proof. vm_compute. reflexivity. Qed.

Lemma remap_grant_error err result :
  remap_grant (Invoked (Some err) result) =
    Invoked (Some (if grant_message (err_message err)
                   then with_code "invalid_grant" err else err)) result.
Proof.
  unfold remap_grant, grant_message.
  destruct (is_string "Invalid Authorization Code" _),
    (is_string "Required param : redirect_uri" _),
    (invalid_redirect_uri _); reflexivity.
Qed.

Lemma remap_scope_error err result :
  remap_scope (Invoked (Some err) result) =
    Invoked (Some (if is_string "Invalid Scope" (err_message err)
                   then with_code "invalid_scope" err else err)) result.
Proof. unfold remap_scope. destruct (is_string _ _); reflexivity. Qed.

(** C4 (amended). When an authorization-code exchange ends in an error, that
    error is the one [makeRequest] reported, with the code [invalid_grant]
    set when its message is one of the three remapped messages, and
    untouched otherwise: any code it already carries is kept. *)
Theorem authorization_code_remap (self : spi) (options : options) (net : backend)
    (err : Error) (result : option jsval) :
  done (createTokenAuthorizationCode self options net) = Invoked (Some err) result →
  ∃ err0,
    done (authorization_code_request self options net) = Invoked (Some err0) result
    ∧ err_message err = err_message err0
    ∧ err = if grant_message (err_message err0)
            then with_code "invalid_grant" err0 else err0.
Proof.
  unfold createTokenAuthorizationCode, with_done. simpl.
  destruct (done (authorization_code_request self options net))
    as [[err0|] result0|]; [| discriminate..].
  rewrite remap_grant_error. intros [= <- <-]. exists err0.
  repeat split. destruct (grant_message _); reflexivity.
Qed.

Lemma authorization_code_remap_witness :
  let net := Response (reply 400 []
    (Str.q "{'ErrorCode':'invalid_request','Error':'Invalid redirect_uri : https://x'}")) in
  ∃ err0,
    done (authorization_code_request example_spi example_options net)
    = Invoked (Some err0) None
    ∧ err_message (mkError (Some (JStr "Invalid redirect_uri : https://x")) (Some 400)
                     (Some (JStr "invalid_grant")) None) = err_message err0
    ∧ mkError (Some (JStr "Invalid redirect_uri : https://x")) (Some 400)
        (Some (JStr "invalid_grant")) None
      = if grant_message (err_message err0)
        then with_code "invalid_grant" err0 else err0.
Proof.
  apply (authorization_code_remap example_spi example_options
           (Response (reply 400 []
              (Str.q "{'ErrorCode':'invalid_request','Error':'Invalid redirect_uri : https://x'}")))).
  vm_compute. reflexivity.
Defined.

(** C4 as stated fails: the backend itself may answer with the code
    [invalid_grant] and a message that is none of the remapped ones. *)
Lemma authorization_code_remap_counterexample :
  let net := Response (reply 400 []
    (Str.q "{'ErrorCode':'invalid_grant','Error':'Code expired'}")) in
  done (createTokenAuthorizationCode example_spi example_options net)
  = Invoked (Some (mkError (Some (JStr "Code expired")) (Some 400)
                     (Some (JStr "invalid_grant")) None)) None
  ∧ grant_message (Some (JStr "Code expired")) = false.
Proof. vm_compute. split; reflexivity. Qed.

(** C5 (amended). When a refresh ends in an error, that error is the one
    [makeRequest] reported, with the code [invalid_scope] set when its
    message is exactly [Invalid Scope], and untouched otherwise. *)
Theorem refresh_remap (self : spi) (options : options) (net : backend)
    (err : Error) (result : option jsval) :
  done (refreshToken_ self options net) = Invoked (Some err) result →
  ∃ err0,
    done (refresh_request self options net) = Invoked (Some err0) result
    ∧ err_message err = err_message err0
    ∧ err = if is_string "Invalid Scope" (err_message err0)
            then with_code "invalid_scope" err0 else err0.
Proof.
  unfold refreshToken_, with_done. simpl.
  destruct (done (refresh_request self options net))
    as [[err0|] result0|]; [| discriminate..].
  rewrite remap_scope_error. intros [= <- <-]. exists err0.
  repeat split. destruct (is_string _ _); reflexivity.
Qed.

Lemma refresh_remap_witness :
  let net := Response (reply 400 []
    (Str.q "{'ErrorCode':'invalid_request','Error':'Invalid Scope'}")) in
  ∃ err0,
    done (refresh_request example_spi example_options net) = Invoked (Some err0) None
    ∧ err_message (mkError (Some (JStr "Invalid Scope")) (Some 400)
                     (Some (JStr "invalid_scope")) None) = err_message err0
    ∧ mkError (Some (JStr "Invalid Scope")) (Some 400) (Some (JStr "invalid_scope")) None
      = if is_string "Invalid Scope" (err_message err0)
        then with_code "invalid_scope" err0 else err0.
Proof.
  apply (refresh_remap example_spi example_options
           (Response (reply 400 []
              (Str.q "{'ErrorCode':'invalid_request','Error':'Invalid Scope'}")))).
  vm_compute. reflexivity.
Defined.

(** C5 as stated fails: the backend itself may answer with the code
    [invalid_scope] and another message. *)
Lemma refresh_remap_counterexample :
  let net := Response (reply 400 []
    (Str.q "{'ErrorCode':'invalid_scope','Error':'Scope not allowed'}")) in
  done (refreshToken_ example_spi example_options net)
  = Invoked (Some (mkError (Some (JStr "Scope not allowed")) (Some 400)
                     (Some (JStr "invalid_scope")) None)) None
  ∧ is_string "Invalid Scope" (Some (JStr "Scope not allowed")) = false.
Proof. vm_compute. split; reflexivity. Qed.

(** ** The dispatcher *)

Lemma requestor_None (p : option string) :
  p ≠ Some "http:" → p ≠ Some "https:" → requestor p = None.
Proof.
  intros Hhttp Hhttps. destruct p as [p|]; [| reflexivity]. simpl.
  destruct (String.eqb_spec p "http:"); [congruence |].
  destruct (String.eqb_spec p "https:"); [congruence | reflexivity].
Qed.

(** C7. When the scheme of the target URL is neither [http:] nor [https:],
    [makeRequest], [makeGetRequest] and [verifyToken] put nothing on the
    network and call back with an error before they return, whatever the
    backend would have done. *)
Theorem unsupported_scheme_no_request (self : spi) (verb uriPath body qs : string)
    (options : options) (token requiredScopes : option jsval) (net : backend) :
  (Url.protocol (uri self +:+ uriPath) ≠ Some "http:" →
   Url.protocol (uri self +:+ uriPath) ≠ Some "https:" →
   makeRequest self verb uriPath body options net =
     {| sent := None; vars := request options;
        done := Invoked (Some (unsupported_protocol
                                 (Url.protocol (uri self +:+ uriPath)))) None |})
  ∧ (Url.protocol (uri self +:+ uriPath +:+ "?" +:+ qs) ≠ Some "http:" →
     Url.protocol (uri self +:+ uriPath +:+ "?" +:+ qs) ≠ Some "https:" →
     makeGetRequest self uriPath qs options net =
       {| sent := None; vars := request options;
          done := Invoked (Some (unsupported_protocol
                                   (Url.protocol (uri self +:+ uriPath +:+ "?" +:+ qs)))) None |})
  ∧ (Url.protocol (href_of_verify self requiredScopes) ≠ Some "http:" →
     Url.protocol (href_of_verify self requiredScopes) ≠ Some "https:" →
     verifyToken self token requiredScopes net =
       {| sent := None; vars := None;
          done := Invoked (Some (unsupported_protocol
                                   (Url.protocol (href_of_verify self requiredScopes)))) None |}).
Proof.
  split; [| split].
  - intros Hhttp Hhttps.
    unfold makeRequest. rewrite (requestor_None _ Hhttp Hhttps). reflexivity.
  - intros Hhttp Hhttps.
    unfold makeGetRequest. rewrite (requestor_None _ Hhttp Hhttps). reflexivity.
  - intros Hhttp Hhttps.
    unfold verifyToken. rewrite (requestor_None _ Hhttp Hhttps). reflexivity.
Qed.

Lemma unsupported_scheme_no_request_witness :
  let self := mkSpi "ftp://files.example.com" "k3y" in
  let net := Response (reply 200 [] "{}") in
  makeRequest self "POST" "/tokentypes/client/tokens" "grant_type=client_credentials"
    example_options net
  = {| sent := None; vars := Some ∅;
       done := Invoked (Some (new_Error "Unsupported protocol ftp:")) None |}
  ∧ makeGetRequest self "/tokentypes/implicit/tokens" "response_type=token"
      example_options net
    = {| sent := None; vars := Some ∅;
         done := Invoked (Some (new_Error "Unsupported protocol ftp:")) None |}
  ∧ verifyToken self (Some (JStr "t0ken")) None net
    = {| sent := None; vars := None;
         done := Invoked (Some (new_Error "Unsupported protocol ftp:")) None |}.
Proof.
  intros self net.
  pose proof (unsupported_scheme_no_request self "POST" "/tokentypes/client/tokens"
                "grant_type=client_credentials" "" example_options
                (Some (JStr "t0ken")) None net) as (Hpost & _ & Hverify).
  pose proof (unsupported_scheme_no_request self "" "/tokentypes/implicit/tokens"
                "" "response_type=token" example_options None None net) as (_ & Hget & _).
  split; [| split].
  - apply Hpost; vm_compute; discriminate.
  - apply Hget; vm_compute; discriminate.
  - apply Hverify; vm_compute; discriminate.
Defined.

(** ** The request of the client-credentials grant *)

Lemma join_cons_nonempty (sep x : string) (l : list string) :
  x ≠ "" → String.eqb (Str.join sep (x :: l)) "" = false.
Proof.
  intros Hx. destruct x as [|a x]; [done |].
  destruct l; reflexivity.
Qed.

(** C10 (amended). Over a supported scheme, the client-credentials grant
    sends a POST whose body is [grant_type=client_credentials], then the
    pairs of [attributes] when set, then those of [scope] when set, and
    nothing else; when [attributes] is set its JSON text goes into the header
    [x-DNA-Token-Attributes] as well. *)
Theorem client_credentials_request (self : spi) (options : options) (net : backend)
    (t : transport) :
  requestor (Url.protocol (uri self +:+ "/tokentypes/client/tokens")) = Some t →
  ∃ w,
    sent (createTokenClientCredentials self options net) = Some w
    ∧ method w = "POST"
    ∧ payload w =
        Some (Str.join "&"
                (["grant_type=client_credentials"]
                 ++ (if truthy_opt (attributes options)
                     then [Querystring.pair "attributes" (attributes options)] else [])
                 ++ (if truthy_opt (scope options)
                     then [Querystring.pair "scope" (scope options)] else [])))
    ∧ lookup_prop "x-DNA-Token-Attributes" (headers w) =
        (if truthy_opt (attributes options)
         then Some (JStr (JSON.stringify (default JNull (attributes options))))
         else None).
Proof.
  intros Hreq.
  unfold createTokenClientCredentials, makeRequest. simpl.
  rewrite Hreq.
  set (body := Querystring.stringify (client_credentials_qs options)).
  assert (Hbody : body =
            Str.join "&"
              (["grant_type=client_credentials"]
               ++ (if truthy_opt (attributes options)
                   then [Querystring.pair "attributes" (attributes options)] else [])
               ++ (if truthy_opt (scope options)
                   then [Querystring.pair "scope" (scope options)] else []))).
  { unfold body, Querystring.stringify, client_credentials_qs, when_set.
    destruct (truthy_opt (attributes options)), (truthy_opt (scope options)); reflexivity. }
  assert (Hne : String.eqb body "" = false).
  { rewrite Hbody. apply join_cons_nonempty. discriminate. }
  rewrite Hne.
  assert (Hhdr : ∀ tl (x : jsval),
            lookup_prop "x-DNA-Token-Attributes"
              (opt_header "x-DNA-Token-Lifetime" tl x
               ++ opt_header "x-DNA-Token-Attributes" (attributes options)
                    (JStr (JSON.stringify (default JNull (attributes options))))
               ++ [("Content-Type", JStr "application/x-www-form-urlencoded")]) =
            (if truthy_opt (attributes options)
             then Some (JStr (JSON.stringify (default JNull (attributes options))))
             else None)).
  { intros tl x. unfold opt_header.
    destruct (truthy_opt tl), (truthy_opt (attributes options)); reflexivity. }
  destruct net as [err | resp].
  - eexists. split; [reflexivity |]. simpl. rewrite Hbody. repeat split. apply Hhdr.
  - destruct (requestComplete resp _);
      (eexists; split; [reflexivity |]; simpl; rewrite Hbody; repeat split; apply Hhdr).
Qed.

Lemma client_credentials_request_witness :
  ∃ w,
    sent (createTokenClientCredentials example_spi example_options
            (Response (reply 200 [] "{}"))) = Some w
    ∧ method w = "POST"
    ∧ payload w =
        Some (Str.join "&"
                (["grant_type=client_credentials"]
                 ++ [Querystring.pair "attributes" (attributes example_options)]
                 ++ [Querystring.pair "scope" (scope example_options)]))
    ∧ lookup_prop "x-DNA-Token-Attributes" (headers w) =
        Some (JStr (JSON.stringify (default JNull (attributes example_options)))).
Proof.
  apply (client_credentials_request example_spi example_options
           (Response (reply 200 [] "{}")) https).
  vm_compute. reflexivity.
Defined.

(** C10 as stated fails: with [attributes] set, the request carries them in
    the attributes header too (and, for a hash of attributes, the body
    parameter is empty). *)
Lemma client_credentials_request_counterexample :
  ∃ w,
    sent (createTokenClientCredentials example_spi example_options
            (Response (reply 200 [] "{}"))) = Some w
    ∧ payload w = Some "grant_type=client_credentials&attributes=&scope=read%20write"
    ∧ lookup_prop "x-DNA-Token-Attributes" (headers w) = Some (JStr (Str.q "{'tier':'gold'}")).
Proof. eexists. split; [vm_compute; reflexivity |]. vm_compute. split; reflexivity. Qed.

(** ** Context variables *)

Lemma starts_with_app (p s : string) :
  Str.starts_with p s = true → s = p +:+ Str.drop (String.length p) s.
Proof.
  revert s. induction p as [|a p IH]; intros s H; [reflexivity |].
  destruct s as [|b s]; [discriminate |]. simpl in H.
  destruct (decide (a = b)) as [-> |]; [| discriminate].
  change (String b s = String b (p +:+ Str.drop (String.length p) s)).
  f_equal. apply IH, H.
Qed.

Lemma header_Some_key (k v : string) (hs : list (string * string)) :
  header k hs = Some v → k ∈ map fst hs.
Proof.
  unfold header. destruct (List.find _ hs) as [[k' v']|] eqn:Hfind; [| discriminate].
  intros _. apply find_some in Hfind as [Hin Heq]. simpl in Heq.
  apply String.eqb_eq in Heq. subst k'.
  apply list_elem_of_In, in_map_iff. exists (k, v'). split; [reflexivity | exact Hin].
Qed.

Section FlowVariables.

Variable hs : list (string * string).

Lemma publish_other (ctx : context) (k name : string) :
  k ≠ "x-v." +:+ name → publish hs ctx k !! name = ctx !! name.
Proof.
  intros Hne. unfold publish.
  destruct (Str.starts_with "x-v." k) eqn:Hpre; [| reflexivity].
  destruct (header k hs) as [v|]; [| reflexivity].
  destruct (String.eqb v ""); [reflexivity |].
  apply lookup_insert_ne. intros Heq. apply Hne.
  pose proof (starts_with_app _ _ Hpre) as Hk.
  change (String.length "x-v.") with 4%nat in Hk. rewrite Hk, Heq. reflexivity.
Qed.

Lemma publish_same (ctx : context) (name : string) :
  publish hs ctx ("x-v." +:+ name) !! name =
    match header ("x-v." +:+ name) hs with
    | Some v => if String.eqb v "" then ctx !! name else Some v
    | None => ctx !! name
    end.
Proof.
  unfold publish.
  change (Str.starts_with "x-v." ("x-v." +:+ name)) with true.
  change (Str.drop 4 ("x-v." +:+ name)) with name. cbv iota zeta.
  destruct (header _ hs) as [v|]; [| reflexivity].
  destruct (String.eqb v ""); [reflexivity | apply lookup_insert_eq].
Qed.

(** The value of a variable after the loop has run over the keys [ks]. *)
Lemma publish_fold (ks : list string) (ctx : context) (name : string) :
  fold_left (publish hs) ks ctx !! name =
    if bool_decide ("x-v." +:+ name ∈ ks) then
      match header ("x-v." +:+ name) hs with
      | Some v => if String.eqb v "" then ctx !! name else Some v
      | None => ctx !! name
      end
    else ctx !! name.
Proof.
  revert ctx. induction ks as [|k ks IH]; intros ctx; [reflexivity |].
  simpl. rewrite IH.
  destruct (decide (k = "x-v." +:+ name)) as [-> | Hne].
  - rewrite (bool_decide_eq_true_2 (_ ∈ _ :: _)) by apply list_elem_of_here.
    rewrite publish_same.
    destruct (header _ hs) as [v|]; [| by case_bool_decide].
    destruct (String.eqb v ""); by case_bool_decide.
  - rewrite publish_other by done.
    assert (Hiff : bool_decide ("x-v." +:+ name ∈ k :: ks)
                   = bool_decide ("x-v." +:+ name ∈ ks)).
    { apply bool_decide_ext. rewrite elem_of_cons.
      split; [intros [? | ?]; [congruence | done] | by right]. }
    rewrite Hiff. reflexivity.
Qed.

End FlowVariables.

(** C9. With a request context, every header named [x-v.] + n with a value
    that is not empty sets the variable n to that value, one with an empty
    value leaves the variable n as it was, and a variable without such a
    header is left as it was; without a request context nothing is set. *)
Theorem setFlowVariables_spec (resp : response) :
  (∀ ctx : context, ∃ ctx' : context,
     setFlowVariables (Some ctx) resp = Some ctx'
     ∧ (∀ key v,
          header key (resp_headers resp) = Some v →
          Str.starts_with "x-v." key = true →
          (v ≠ "" → ctx' !! Str.drop 4 key = Some v)
          ∧ (v = "" → ctx' !! Str.drop 4 key = ctx !! Str.drop 4 key))
     ∧ (∀ name,
          header ("x-v." +:+ name) (resp_headers resp) = None →
          ctx' !! name = ctx !! name))
  ∧ setFlowVariables None resp = None.
Proof.
  split; [| reflexivity]. intros ctx. eexists. split; [reflexivity |]. split.
  - intros key v Hhdr Hpre.
    pose proof (starts_with_app _ _ Hpre) as Hkey.
    change (String.length "x-v.") with 4%nat in Hkey.
    rewrite publish_fold, <- Hkey, Hhdr.
    rewrite bool_decide_eq_true_2 by (eapply header_Some_key, Hhdr).
    split.
    + intros Hv. destruct (String.eqb_spec v ""); [done | reflexivity].
    + intros ->. reflexivity.
  - intros name Hnone. rewrite publish_fold, Hnone. by case_bool_decide.
Qed.

Lemma setFlowVariables_spec_witness :
  let resp := reply 200 [("content-type", "application/json");
                         ("x-v.sessionId", "abc123"); ("x-v.note", "")] "{}" in
  let ctx : context := {[ "note" := "kept" ]} in
  ∃ ctx' : context,
    setFlowVariables (Some ctx) resp = Some ctx'
    ∧ ctx' !! "sessionId" = Some "abc123"
    ∧ ctx' !! "note" = Some "kept".
Proof.
  intros resp ctx.
  destruct (proj1 (setFlowVariables_spec resp) ctx) as (ctx' & Hrun & Hset & _).
  exists ctx'. split; [exact Hrun |]. split.
  - apply (proj1 (Hset "x-v.sessionId" "abc123" eq_refl eq_refl)). discriminate.
  - apply (proj2 (Hset "x-v.note" "" eq_refl eq_refl)). reflexivity.
Defined.

(** ** The verify-response interpreter *)

Lemma difference_nil (required : list jsval) (granted : list string) :
  Underscore.difference required granted = []
  ↔ ∀ r, r ∈ required → Underscore.contains granted r = true.
Proof.
  unfold Underscore.difference. induction required as [|x l IH]; simpl.
  - split; [intros _ r Hr; inversion Hr | reflexivity].
  - destruct (Underscore.contains granted x) eqn:Hx; simpl.
    + rewrite IH. split.
      * intros H r [-> | Hr]%elem_of_cons; [exact Hx | exact (H r Hr)].
      * intros H r Hr. apply H. by right.
    + split; [discriminate |].
      intros H. specialize (H x (list_elem_of_here _ _)). congruence.
Qed.

Lemma difference_empty_test (required : list jsval) (granted : list string) :
  (length (Underscore.difference required granted) =? 0)%nat = true
  ↔ ∀ r, r ∈ required → Underscore.contains granted r = true.
Proof.
  rewrite <- difference_nil.
  destruct (Underscore.difference required granted); simpl; split; done.
Qed.

Section Verify.

Variables (resp : response) (requiredScopes : option jsval).
Hypothesis ended : resp_failure resp = None.
Hypothesis ok : resp_statusCode resp = 200.

Lemma verifyRequestComplete_ok :
  verifyRequestComplete resp requiredScopes =
    match check_scopes (respData resp) requiredScopes with
    | Ret (inl err) => Invoked (Some err) None
    | Ret (inr parsed) => Invoked None (Some (JObj parsed))
    | Throw e => Uncaught e
    end.
Proof. unfold verifyRequestComplete. rewrite ended, ok. reflexivity. Qed.

Lemma granted_scopes_field parsed scope_field :
  lookup_prop "scope" parsed = JStr <$> scope_field →
  granted_scopes parsed = Ret (granted_of scope_field).
Proof.
  intros Hscope. unfold granted_scopes. rewrite Hscope.
  destruct scope_field as [s|]; simpl; [| reflexivity].
  destruct (String.eqb s ""); reflexivity.
Qed.

(** C1 (amended). On 200 the body is parsed as a query string; the granted
    scopes are the [scope] field split at spaces (none when the field is
    absent or empty).  A required scope that is not granted makes the
    callback receive the error [invalid_scope]; when all are granted it
    receives the parsed fields, in which [attributes], when it is there and
    not empty, is replaced by its JSON decoding. *)
Theorem verify_scopes (required : list jsval) (scope_field : option string) :
  let parsed := Querystring.parse (respData resp) in
  let granted := granted_of scope_field in
  required_scopes requiredScopes = Ret required →
  lookup_prop "scope" parsed = JStr <$> scope_field →
  ((∃ r, r ∈ required ∧ Underscore.contains granted r = false) →
   verifyRequestComplete resp requiredScopes = Invoked (Some invalid_scope) None)
  ∧ ((∀ r, r ∈ required → Underscore.contains granted r = true) →
     (truthy_opt (lookup_prop "attributes" parsed) = false →
      verifyRequestComplete resp requiredScopes = Invoked None (Some (JObj parsed)))
     ∧ (∀ a,
          truthy_opt (lookup_prop "attributes" parsed) = true →
          JSON.parse (to_string_opt (lookup_prop "attributes" parsed)) = Ret a →
          verifyRequestComplete resp requiredScopes =
            Invoked None (Some (JObj (set_prop "attributes" a parsed))))).
Proof.
  intros parsed granted Hreq Hscope.
  rewrite verifyRequestComplete_ok. unfold check_scopes.
  fold parsed. rewrite Hreq, (granted_scopes_field _ _ Hscope). simpl.
  fold granted.
  destruct (length (Underscore.difference required granted) =? 0)%nat eqn:Hdiff; simpl.
  - pose proof (proj1 (difference_empty_test _ _) Hdiff) as Hall. clear Hdiff.
    rename Hall into Hdiff. split.
    + intros (r & Hin & Hnot). rewrite (Hdiff r Hin) in Hnot. discriminate.
    + intros _. split.
      * intros ->. reflexivity.
      * intros a -> ->. reflexivity.
  - split; [reflexivity |].
    intros Hall. pose proof (proj2 (difference_empty_test _ _) Hall). congruence.
Qed.

End Verify.

Lemma verify_scopes_witness :
  let required := Some (JArr [JStr "read"; JStr "write"] []) in
  verifyRequestComplete (reply 200 [] "scope=read") required
  = Invoked (Some invalid_scope) None
  ∧ verifyRequestComplete (reply 200 [] "scope=read+write+admin&client_id=id") required
    = Invoked None (Some (JObj [("scope", JStr "read write admin");
                                ("client_id", JStr "id")])).
Proof.
  intros required. split.
  - apply (proj1 (verify_scopes (reply 200 [] "scope=read") required eq_refl eq_refl
                    [JStr "read"; JStr "write"] (Some "read") eq_refl eq_refl)).
    exists (JStr "write"). split; [| reflexivity].
    apply elem_of_cons. right. apply list_elem_of_here.
  - apply (proj1 (proj2 (verify_scopes
                           (reply 200 [] "scope=read+write+admin&client_id=id") required
                           eq_refl eq_refl
                           [JStr "read"; JStr "write"] (Some "read write admin")
                           eq_refl eq_refl)
                    (proj1 (difference_nil [JStr "read"; JStr "write"]
                                           ["read"; "write"; "admin"]) eq_refl))).
    reflexivity.
Defined.

(** C1 as stated fails: with all required scopes granted, the result is not
    the parsed form fields when [attributes] is among them; that field comes
    back decoded. *)
Lemma verify_scopes_counterexample :
  let resp := reply 200 []
    "scope=read+write+admin&attributes=%7B%22tier%22%3A%22gold%22%7D" in
  let required := Some (JArr [JStr "read"; JStr "write"] []) in
  Querystring.parse (respData resp)
  = [("scope", JStr "read write admin"); ("attributes", JStr (Str.q "{'tier':'gold'}"))]
  ∧ verifyRequestComplete resp required
    = Invoked None (Some (JObj [("scope", JStr "read write admin");
                                ("attributes", JObj [("tier", JStr "gold")])]))
  ∧ verifyRequestComplete resp required
    ≠ Invoked None (Some (JObj (Querystring.parse (respData resp)))).
Proof. vm_compute. repeat split; discriminate. Qed.

(** ** The lifetime of a token *)

Lemma lookup_set_prop_eq (k : string) (x : jsval) (ps : list (string * jsval)) :
  lookup_prop k (set_prop k x ps) = Some x.
Proof.
  induction ps as [|[k' v'] ps IH]; simpl.
  - by rewrite decide_True.
  - destruct (decide (k' = k)) as [-> | Hne]; simpl.
    + by rewrite decide_True.
    + by rewrite decide_False.
Qed.

Lemma lookup_set_prop_ne (k k' : string) (x : jsval) (ps : list (string * jsval)) :
  k ≠ k' → lookup_prop k (set_prop k' x ps) = lookup_prop k ps.
Proof.
  intros Hne. induction ps as [|[k0 v0] ps IH]; simpl.
  - by rewrite decide_False.
  - destruct (decide (k0 = k')) as [-> | Hne0]; simpl.
    + by rewrite !decide_False.
    + destruct (decide (k0 = k)); [reflexivity | exact IH].
Qed.

Lemma get_set_eq (k : string) (x v v' : jsval) :
  set k x v = Ret v' → get k v' = Ret (Some x).
Proof.
  destruct v; simpl; try discriminate; intros [= <-]; simpl;
    by rewrite lookup_set_prop_eq.
Qed.

Lemma get_set_ne (k k' : string) (x v v' : jsval) :
  k ≠ k' → set k' x v = Ret v' → get k v' = get k v.
Proof.
  intros Hne. destruct v; simpl; try discriminate; intros [= <-]; simpl;
    by rewrite lookup_set_prop_ne.
Qed.

Lemma get_Some_set (k k' : string) (x y v : jsval) :
  get k v = Ret (Some y) → ∃ v', set k' x v = Ret v'.
Proof. destruct v; simpl; try discriminate; eauto. Qed.

Lemma find_None_Forall {A} (f : A → bool) (l : list A) :
  Forall (λ x, f x = false) l → List.find f l = None.
Proof. induction 1 as [|x l Hx _ IH]; simpl; [reflexivity | by rewrite Hx]. Qed.

Lemma strip_one_None (c : ascii) (r : string) :
  Str.is_digit c = true ∨ c = "-"%char ∨ c = "+"%char →
  Str.strip_one (String c r) = None.
Proof.
  intros Hc. unfold Str.strip_one.
  assert (Hfind : List.find (λ w, Str.starts_with w (String c r)) Str.white_space = None);
    [| by rewrite Hfind].
  apply find_None_Forall. unfold Str.white_space. simpl.
  repeat (apply Forall_cons; split;
          [simpl; case_decide as Heq; [exfalso | reflexivity];
           subst c; destruct Hc as [Hc | [Hc | Hc]]; discriminate Hc |]).
  apply Forall_nil. done.
Qed.

Lemma trim_left_None (c : ascii) (r : string) :
  Str.is_digit c = true ∨ c = "-"%char ∨ c = "+"%char →
  Str.trim_left (String c r) = String c r.
Proof.
  intros Hc. unfold Str.trim_left. simpl. by rewrite strip_one_None.
Qed.

Lemma take_while_nonempty (p : ascii → bool) (s : string) :
  String.eqb (Str.take_while p s) "" = false → ∃ c r, s = String c r ∧ p c = true.
Proof.
  destruct s as [|c r]; simpl; [discriminate |].
  destruct (p c) eqn:Hp; [eauto | discriminate].
Qed.

(** [parseInt] of a numeric string is an integer. *)
Lemma parseInt_numeric (s : string) :
  numeric_string s = true → ∃ z, parseInt (JStr s) = Fin z 0 ∧ s ≠ "".
Proof.
  unfold numeric_string. intros [Hint _]%andb_true_iff.
  apply negb_true_iff in Hint.
  pose proof (take_while_nonempty _ _ Hint) as (d & r & Hbody & Hd).
  assert (Htrim : Str.trim_left s = s).
  { destruct s as [|c s']; [discriminate |]. apply trim_left_None.
    unfold Str.strip_sign in Hbody.
    destruct (decide (c = "-"%char)); [auto |].
    destruct (decide (c = "+"%char)); [auto |].
    simpl in Hbody. injection Hbody as -> ->. auto. }
  unfold parseInt. simpl to_string. rewrite Htrim, Hint.
  eexists. split; [reflexivity |]. intros ->. discriminate.
Qed.

(** C8. In a successful token response, an [expires_in] that the backend
    sent as a numeric string is an integer in the result. *)
Theorem expires_in_integer (resp : response) (options : options) (json result : jsval)
    (s : string) :
  requestComplete resp options = Invoked None (Some result) →
  JSON.parse (respData resp) = Ret json →
  get "expires_in" json = Ret (Some (JStr s)) →
  numeric_string s = true →
  ∃ z, get "expires_in" result = Ret (Some (JNum (Fin z 0)))
       ∧ parseInt (JStr s) = Fin z 0.
Proof.
  intros Hdone Hparse Hget Hnum.
  destruct (parseInt_numeric s Hnum) as (z & Hint & Hne).
  exists z. split; [| exact Hint].
  assert (Hdec : decode_token (respData resp) options = Ret result).
  { unfold requestComplete in Hdone.
    destruct (resp_failure resp); [discriminate |].
    destruct (300 <=? resp_statusCode resp).
    - destruct (_ || _); [| discriminate].
      destruct (decode_oauth_error _ _); discriminate.
    - destruct (decode_token _ _); [congruence | discriminate]. }
  clear Hdone. unfold decode_token in Hdec.
  rewrite Hparse in Hdec. simpl in Hdec. rewrite Hget in Hdec. simpl in Hdec.
  assert (Htruthy : negb (String.eqb s "") = true).
  { destruct s; [done | reflexivity]. }
  rewrite Htruthy, Hint in Hdec.
  destruct (get_Some_set "expires_in" "expires_in" (JNum (Fin z 0)) _ _ Hget) as [j1 Hj1].
  rewrite Hj1 in Hdec. simpl in Hdec.
  pose proof (get_set_eq _ _ _ _ Hj1) as Hg1.
  assert (Hstep2 : ∃ j2, (if truthy_opt (grantType options)
                          then set "token_type" (default JNull (grantType options)) j1
                          else Ret j1) = Ret j2
                         ∧ get "expires_in" j2 = Ret (Some (JNum (Fin z 0)))).
  { destruct (truthy_opt (grantType options)); [| eauto].
    destruct (get_Some_set "expires_in" "token_type"
                (default JNull (grantType options)) _ _ Hg1) as [j2 Hj2].
    exists j2. split; [exact Hj2 |].
    rewrite (get_set_ne "expires_in" "token_type" _ _ _ ltac:(discriminate) Hj2).
    exact Hg1. }
  destruct Hstep2 as (j2 & Hj2 & Hg2). rewrite Hj2 in Hdec. simpl in Hdec.
  destruct (get "attributes" j2) as [attrs|]; simpl in Hdec; [| discriminate].
  destruct (truthy_opt attrs).
  - destruct (JSON.parse (to_string_opt attrs)) as [a|]; simpl in Hdec; [| discriminate].
    rewrite (get_set_ne "expires_in" "attributes" _ _ _ ltac:(discriminate) Hdec).
    exact Hg2.
  - injection Hdec as <-. exact Hg2.
Qed.

Lemma expires_in_integer_witness :
  let resp := reply 200 []
    (Str.q "{'access_token':'tok','token_type':'BearerToken','expires_in':'3599'}") in
  ∃ z, get "expires_in" (JObj [("access_token", JStr "tok");
                               ("token_type", JStr "client_credentials");
                               ("expires_in", JNum (Fin 3599 0))])
       = Ret (Some (JNum (Fin z 0)))
       ∧ parseInt (JStr "3599") = Fin z 0.
Proof.
  intros resp.
  apply (expires_in_integer resp (with_grantType "client_credentials" example_options)
           (JObj [("access_token", JStr "tok"); ("token_type", JStr "BearerToken");
                  ("expires_in", JStr "3599")])
           (JObj [("access_token", JStr "tok"); ("token_type", JStr "client_credentials");
                  ("expires_in", JNum (Fin 3599 0))])
           "3599"); vm_compute; reflexivity.
Defined.

(** ** The fuel of the JSON parser is enough *)

Lemma ws_length (s : list ascii) : (length (JSON.ws s) ≤ length s)%nat.
Proof.
  induction s as [|c s IH]; simpl; [lia |].
  destruct (JSON.is_ws c); simpl; lia.
Qed.

Lemma span_length (p : ascii → bool) (s a b : list ascii) :
  JSON.span p s = (a, b) → (length b ≤ length s)%nat.
Proof.
  revert a b. induction s as [|c s IH]; simpl; intros a b.
  - intros [= <- <-]. simpl. lia.
  - destruct (p c).
    + destruct (JSON.span p s) as [a' b'] eqn:Hspan. intros [= <- <-].
      specialize (IH _ _ eq_refl). lia.
    + intros [= <- <-]. simpl. lia.
Qed.

Lemma minus_sign_length (s : list ascii) :
  (length (snd (JSON.minus_sign s)) ≤ length s)%nat.
Proof.
  unfold JSON.minus_sign. destruct s as [|c s']; [reflexivity |].
  case_decide; cbn [snd length]; lia.
Qed.

Lemma int_part_length (s int r : list ascii) :
  JSON.int_part s = (int, r) → (length r ≤ length s)%nat.
Proof.
  unfold JSON.int_part. destruct s as [|c s'].
  - intros [= <- <-]. reflexivity.
  - case_decide.
    + intros [= <- <-]. cbn [length]. lia.
    + apply span_length.
Qed.

Lemma frac_part_length (s fr r : list ascii) :
  JSON.frac_part s = Some (fr, r) → (length r ≤ length s)%nat.
Proof.
  unfold JSON.frac_part. destruct s as [|c s'].
  - intros [= <- <-]. reflexivity.
  - case_decide.
    + destruct (JSON.span Str.is_digit s') as [[|d ds] r'] eqn:Hspan; [discriminate |].
      intros [= <- <-]. apply span_length in Hspan. cbn [length]. lia.
    + intros [= <- <-]. reflexivity.
Qed.

Lemma exp_sign_length (s : list ascii) :
  (length (snd (JSON.exp_sign s)) ≤ length s)%nat.
Proof.
  unfold JSON.exp_sign. destruct s as [|c s']; [reflexivity |].
  repeat case_decide; cbn [snd length]; lia.
Qed.

Lemma exp_part_length (s r : list ascii) (e : Z) :
  JSON.exp_part s = Some (e, r) → (length r ≤ length s)%nat.
Proof.
  unfold JSON.exp_part. destruct s as [|c s'].
  - intros [= <- <-]. reflexivity.
  - case_decide.
    + pose proof (exp_sign_length s') as Hs.
      destruct (JSON.span Str.is_digit _) as [[|d ds] r'] eqn:Hspan; [discriminate |].
      intros [= <- <-]. apply span_length in Hspan. cbn [length]. lia.
    + intros [= <- <-]. reflexivity.
Qed.

Lemma number_length (s r : list ascii) (v : jsval) :
  JSON.number s = JSON.Parsed v r → (length r ≤ length s)%nat.
Proof.
  unfold JSON.number. pose proof (minus_sign_length s) as H1.
  destruct (JSON.int_part _) as [int s2] eqn:Hint. apply int_part_length in Hint.
  destruct int; [discriminate |].
  destruct (JSON.frac_part s2) as [[fr s3]|] eqn:Hfrac; [| discriminate].
  apply frac_part_length in Hfrac.
  destruct (JSON.exp_part s3) as [[e s4]|] eqn:Hexp; [| discriminate].
  apply exp_part_length in Hexp.
  intros [= <- <-]. lia.
Qed.

Lemma literal_length (s r : list ascii) (v : jsval) :
  JSON.literal s = JSON.Parsed v r → (length r ≤ length s)%nat.
Proof.
  unfold JSON.literal, JSON.lit. destruct s as [|c s']; [discriminate |].
  repeat case_decide; try discriminate.
  all: destruct (Str.starts_with _ _); [| discriminate].
  all: intros Heq; injection Heq as <- <-.
  all: rewrite length_drop; cbn [length]; lia.
Qed.

Lemma chars_length (n : nat) :
  ∀ s cs r, (length s ≤ n)%nat → JSON.chars s = Some (cs, r) → (length r ≤ length s)%nat.
Proof.
  induction n as [|n IH]; intros s cs r Hn H.
  - destruct s; [discriminate | simpl in Hn; lia].
  - destruct s as [|c s']; [discriminate |]. simpl in H. cbn [length] in *.
    repeat case_match; simplify_eq; cbn [length] in *;
      repeat match goal with
        | Hc : JSON.chars ?x = Some (_, ?y) |- _ =>
            apply IH in Hc; [| cbn [length]; lia]
        end;
      cbn [length] in *; lia.
Qed.

Lemma chars_shorter (s cs r : list ascii) :
  JSON.chars s = Some (cs, r) → (length r ≤ length s)%nat.
Proof. apply (chars_length (length s)). lia. Qed.

Ltac json_lengths :=
  repeat match goal with
    | H : JSON.ws ?s = _ :: _ |- _ =>
        let Hl := fresh "Hl" in
        pose proof (ws_length s) as Hl; rewrite H in Hl; clear H
    | H : JSON.ws ?s = [] |- _ => clear H
    | H : JSON.chars _ = Some _ |- _ => apply chars_shorter in H
    | H : JSON.number _ = JSON.Parsed _ _ |- _ => apply number_length in H
    | H : JSON.literal _ = JSON.Parsed _ _ |- _ => apply literal_length in H
    end;
  cbn [length] in *.

(** What is left after a value is no longer than the input. *)
Lemma value_length (fuel : nat) :
  (∀ s v r, JSON.value fuel s = JSON.Parsed v r → (length r ≤ length s)%nat)
  ∧ (∀ s acc v r, JSON.elements fuel s acc = JSON.Parsed v r → (length r ≤ length s)%nat)
  ∧ (∀ s acc v r, JSON.members fuel s acc = JSON.Parsed v r → (length r ≤ length s)%nat).
Proof.
  induction fuel as [|fuel (IHv & IHe & IHm)]; [repeat split; intros; discriminate |].
  repeat split.
  - intros s v r H. cbn [JSON.value] in H.
    repeat case_match; simplify_eq;
      try (apply IHe in H); try (apply IHm in H); json_lengths; lia.
  - intros s acc v r H. cbn [JSON.elements] in H.
    destruct (JSON.value fuel s) as [v0 r0| |] eqn:Hv; try discriminate.
    apply IHv in Hv.
    repeat case_match; simplify_eq; try (apply IHe in H); json_lengths; lia.
  - intros s acc v r H. cbn [JSON.members] in H.
    repeat case_match; simplify_eq;
      repeat match goal with
        | Hv : JSON.value fuel _ = JSON.Parsed _ _ |- _ => apply IHv in Hv
        end;
      try (apply IHm in H); json_lengths; lia.
Qed.

Lemma number_fuel (s : list ascii) : JSON.number s ≠ JSON.OutOfFuel.
Proof. unfold JSON.number. repeat case_match; discriminate. Qed.

Lemma literal_fuel (s : list ascii) : JSON.literal s ≠ JSON.OutOfFuel.
Proof. unfold JSON.literal, JSON.lit. repeat case_match; discriminate. Qed.

Lemma value_fuel (fuel : nat) :
  (∀ s, (2 * length s + 1 ≤ fuel)%nat → JSON.value fuel s ≠ JSON.OutOfFuel)
  ∧ (∀ s acc, (2 * length s + 2 ≤ fuel)%nat → JSON.elements fuel s acc ≠ JSON.OutOfFuel)
  ∧ (∀ s acc, (2 * length s + 2 ≤ fuel)%nat → JSON.members fuel s acc ≠ JSON.OutOfFuel).
Proof.
  induction fuel as [|fuel (IHv & IHe & IHm)]; [repeat split; intros; lia |].
  repeat split.
  - intros s Hf. cbn [JSON.value].
    repeat case_match; try discriminate;
      try apply number_fuel; try apply literal_fuel;
      (apply IHm || apply IHe); json_lengths; lia.
  - intros s acc Hf. cbn [JSON.elements].
    destruct (JSON.value fuel s) as [v0 r0| |] eqn:Hv; try discriminate.
    + apply (proj1 (value_length fuel)) in Hv.
      repeat case_match; try discriminate. apply IHe. json_lengths. lia.
    + exfalso. revert Hv. apply IHv. lia.
  - intros s acc Hf. cbn [JSON.members].
    repeat case_match; try discriminate; subst.
    + apply IHm.
      repeat match goal with
        | Hv : JSON.value fuel _ = JSON.Parsed _ _ |- _ =>
            apply (proj1 (value_length fuel)) in Hv
        end.
      json_lengths. lia.
    + exfalso.
      match goal with
      | Hv : JSON.value fuel ?x = JSON.OutOfFuel |- _ => revert Hv; apply IHv
      end.
      json_lengths. lia.
Qed.

(** [JSON.parse] never runs out of fuel: a [SyntaxError] is a text that is
    not JSON. *)
Lemma JSON_parse_fuel (text : string) :
  JSON.value (JSON.fuel_for (Str.to_list text)) (Str.to_list text) ≠ JSON.OutOfFuel.
Proof. apply (proj1 (value_fuel _)). unfold JSON.fuel_for. lia. Qed.

(** ** The response reader *)

Lemma append_assoc (a b c : string) : (a +:+ b) +:+ c = a +:+ (b +:+ c).
Proof.
  induction a as [|x a IH]; [reflexivity |].
  change (String x ((a +:+ b) +:+ c) = String x (a +:+ (b +:+ c))). by rewrite IH.
Qed.

Lemma append_empty_r (a : string) : a +:+ "" = a.
Proof.
  induction a as [|x a IH]; [reflexivity |].
  change (String x (a +:+ "") = String x a). by rewrite IH.
Qed.

Lemma readResponse_append (chunks : list string) (data : string) :
  readResponse chunks data = data +:+ fold_right String.append "" chunks.
Proof.
  unfold readResponse. revert data.
  induction chunks as [|d chunks IH]; intros data; simpl.
  - by rewrite append_empty_r.
  - by rewrite IH, append_assoc.
Qed.

Lemma fold_right_append_app (l1 l2 : list string) :
  fold_right String.append "" (l1 ++ l2)
  = fold_right String.append "" l1 +:+ fold_right String.append "" l2.
Proof.
  induction l1 as [|x l1 IH]; simpl; [reflexivity |]. by rewrite IH, append_assoc.
Qed.

Lemma respData_body (resp : response) : respData resp = body_of resp.
Proof.
  unfold respData, body_of.
  assert (H : ∀ events data,
            fold_left (λ data chunks, readResponse chunks data) events data
            = data +:+ fold_right String.append "" (concat events)).
  { induction events as [|chunks events IH]; intros data; simpl.
    - by rewrite append_empty_r.
    - by rewrite IH, readResponse_append, fold_right_append_app, append_assoc. }
  apply (H _ "").
Qed.

(** X1. The interpreters see of the body only the texts of the chunks read,
    appended in order: two responses with the same status, headers and ending
    whose chunk texts append to the same string are interpreted alike, however
    the chunks are spread over ['readable'] events. *)
Theorem chunking_invariance (r1 r2 : response) :
  same_response r1 r2 →
  (∀ options, requestComplete r1 options = requestComplete r2 options)
  ∧ (∀ options, getRequestComplete r1 options = getRequestComplete r2 options)
  ∧ (∀ requiredScopes,
       verifyRequestComplete r1 requiredScopes = verifyRequestComplete r2 requiredScopes).
Proof.
  intros (Hst & Hhs & Hfail & Hbody).
  rewrite <- !respData_body in Hbody.
  unfold requestComplete, getRequestComplete, verifyRequestComplete,
    decode_oauth_error, http_error.
  rewrite Hst, Hhs, Hfail, Hbody. done.
Qed.

Lemma chunking_invariance_witness :
  let r1 := mkResponse 200 [] [["scope=read"; "+wri"]; []; ["te"]] None in
  let r2 := mkResponse 200 [] [["scope=read+write"]] None in
  verifyRequestComplete r1 (Some (JStr "write")) = verifyRequestComplete r2 (Some (JStr "write")).
Proof.
  intros r1 r2.
  apply (chunking_invariance r1 r2). repeat split; reflexivity.
Defined.

(** ** What every operation does *)






Lemma makeRequest_vars self verb uriPath body options resp :
  let o := makeRequest self verb uriPath body options (Response resp) in
  (sent o = None → vars o = request options)
  ∧ (∀ e, done o = Uncaught e → vars o = request options)
  ∧ (sent o ≠ None → ∀ a b, done o = Invoked a b →
     vars o = setFlowVariables (request options) resp).
Proof.
  unfold makeRequest. destruct (requestor _); simpl.
  - destruct (requestComplete resp options); simpl; repeat split; try done.
  - repeat split; try done.
Qed.

Lemma makeGetRequest_vars self uriPath qs options resp :
  let o := makeGetRequest self uriPath qs options (Response resp) in
  (sent o = None → vars o = request options)
  ∧ (∀ e, done o = Uncaught e → vars o = request options)
  ∧ (sent o ≠ None → ∀ a b, done o = Invoked a b →
     vars o = setFlowVariables (request options) resp).
Proof.
  unfold makeGetRequest. destruct (requestor _); simpl.
  - destruct (getRequestComplete resp options); simpl; repeat split; try done.
  - repeat split; try done.
Qed.

Lemma remap_grant_uncaught c e : remap_grant c = Uncaught e → c = Uncaught e.
Proof.
  destruct c as [[err|] r|]; simpl; try done.
  destruct (_ || _); [done |]. destruct (invalid_redirect_uri _); done.
Qed.

Lemma remap_scope_uncaught c e : remap_scope c = Uncaught e → c = Uncaught e.
Proof.
  destruct c as [[err|] r|]; simpl; try done. destruct (is_string _ _); done.
Qed.

Lemma remap_grant_invoked c a b : remap_grant c = Invoked a b → ∃ a', c = Invoked a' b.
Proof.
  destruct c as [[err|] r|]; simpl; try done; [| intros [= <- <-]; eauto].
  destruct (_ || _); [intros [= <- <-]; eauto |].
  destruct (invalid_redirect_uri _); intros [= <- <-]; eauto.
Qed.

Lemma remap_scope_invoked c a b : remap_scope c = Invoked a b → ∃ a', c = Invoked a' b.
Proof.
  destruct c as [[err|] r|]; simpl; try done; [| intros [= <- <-]; eauto].
  destruct (is_string _ _); intros [= <- <-]; eauto.
Qed.

(** X3. Whenever a response of the backend leads to a call of the callback,
    whatever its status, the request context of the operation is the one
    [setFlowVariables] makes of it from that response; when nothing was sent,
    or an exception left the handler, the context is left as it was. *)
Theorem variables_published (self : spi) (op : operation) (resp : response) :
  let o := run self op (Response resp) in
  (sent o = None → vars o = context_of op)
  ∧ (∀ e, done o = Uncaught e → vars o = context_of op)
  ∧ (sent o ≠ None → ∀ a b, done o = Invoked a b →
     vars o = setFlowVariables (context_of op) resp).
Proof.
  destruct op as [o|o|o|o|o|o|o|t s];
    unfold run, context_of, createTokenClientCredentials, createTokenPasswordCredentials,
      createTokenAuthorizationCode, authorization_code_request, generateAuthorizationCode,
      createTokenImplicitGrant, refreshToken_, refresh_request, invalidateToken;
    cbv zeta.
  1, 2, 7: match goal with |- context [makeRequest ?a ?b ?c ?d ?e ?f] =>
      exact (makeRequest_vars a b c d e resp) end.
  2, 3: apply makeGetRequest_vars.
  - match goal with |- context [makeRequest ?a ?b ?c ?d ?e ?f] =>
      pose proof (makeRequest_vars a b c d e resp) as (H1 & H2 & H3) end.
    unfold with_done; cbn [sent vars done].
    repeat split; [exact H1 | |].
    + intros e He%remap_grant_uncaught. exact (H2 e He).
    + intros Hs a b (a' & Ha)%remap_grant_invoked. exact (H3 Hs a' b Ha).
  - match goal with |- context [makeRequest ?a ?b ?c ?d ?e ?f] =>
      pose proof (makeRequest_vars a b c d e resp) as (H1 & H2 & H3) end.
    unfold with_done; cbn [sent vars done].
    repeat split; [exact H1 | |].
    + intros e He%remap_scope_uncaught. exact (H2 e He).
    + intros Hs a b (a' & Ha)%remap_scope_invoked. exact (H3 Hs a' b Ha).
  - unfold verifyToken. destruct (requestor _); simpl; repeat split; done.
Qed.

Lemma variables_published_witness :
  let resp := reply 500 [("x-v.fault", "steps.oauth.Failed")] "Internal Server Error" in
  vars (run example_spi (InvalidateToken example_options) (Response resp))
  = setFlowVariables (context_of (InvalidateToken example_options)) resp
  ∧ vars (run example_spi (InvalidateToken example_options) (Response resp))
    = Some {[ "fault" := "steps.oauth.Failed" ]}.
Proof.
  intros resp. split; [| vm_compute; reflexivity].
  apply (proj2 (proj2 (variables_published example_spi
                         (InvalidateToken example_options) resp))
           ltac:(vm_compute; discriminate)
           (Some (mkError (Some (JStr "Internal Server Error")) (Some 500) None None)) None).
  vm_compute. reflexivity.
Defined.

(** ** The redirect operations *)

Lemma makeGetRequest_redirect self uriPath qs options resp w :
  sent (makeGetRequest self uriPath qs options (Response resp)) = Some w →
  resp_failure resp = None →
  w = {| via := via w; href := uri self +:+ uriPath +:+ "?" +:+ qs; method := "GET";
         headers := [("x-DNA-Api-Key", JStr (key self))]; payload := None |}
  ∧ done (makeGetRequest self uriPath qs options (Response resp)) =
      (if resp_statusCode resp =? 302
       then Invoked None (JStr <$> header "location" (resp_headers resp))
       else Invoked (Some (http_error resp (Some (JStr (body_of resp))) None)) None).
Proof.
  intros Hsent Hend. rewrite <- respData_body. revert Hsent.
  unfold makeGetRequest, getRequestComplete. rewrite Hend.
  destruct (requestor _); [| done].
  destruct (resp_statusCode resp =? 302); simpl; intros [= <-]; done.
Qed.

(** X4. The two redirect operations, once their request is sent and the
    response has ended: a GET with the API key as its only header and no
    body; on status 302 the callback receives the [Location] header (nothing
    at all when the response has none), on any other status an error with the
    status and the body as message. *)
Theorem redirect_operations (self : spi) (options : options) (resp : response) (w : wire) :
  resp_failure resp = None →
  let expected :=
    if resp_statusCode resp =? 302
    then Invoked None (JStr <$> header "location" (resp_headers resp))
    else Invoked (Some (http_error resp (Some (JStr (body_of resp))) None)) None in
  (sent (generateAuthorizationCode self options (Response resp)) = Some w →
   method w = "GET" ∧ payload w = None
   ∧ headers w = [("x-DNA-Api-Key", JStr (key self))]
   ∧ done (generateAuthorizationCode self options (Response resp)) = expected)
  ∧ (sent (createTokenImplicitGrant self options (Response resp)) = Some w →
     method w = "GET" ∧ payload w = None
     ∧ headers w = [("x-DNA-Api-Key", JStr (key self))]
     ∧ done (createTokenImplicitGrant self options (Response resp)) = expected).
Proof.
  intros Hend expected. unfold generateAuthorizationCode, createTokenImplicitGrant.
  split; intros Hsent;
    destruct (makeGetRequest_redirect _ _ _ _ _ _ Hsent Hend) as [-> ->]; done.
Qed.

Lemma redirect_operations_witness :
  let resp := reply 302 [("location", "https://cb?code=1")] "" in
  ∃ w, sent (generateAuthorizationCode example_spi example_options (Response resp)) = Some w
       ∧ done (generateAuthorizationCode example_spi example_options (Response resp))
         = Invoked None (Some (JStr "https://cb?code=1")).
Proof.
  intros resp. eexists. split; [vm_compute; reflexivity |].
  refine (proj2 (proj2 (proj2 (proj1 (redirect_operations example_spi example_options
                                         resp _ eq_refl) _)))).
  vm_compute. reflexivity.
Defined.

(** ** The token response *)

Lemma requestComplete_result resp options result :
  requestComplete resp options = Invoked None (Some result) →
  decode_token (respData resp) options = Ret result.
Proof.
  unfold requestComplete.
  destruct (resp_failure resp); [discriminate |].
  destruct (300 <=? resp_statusCode resp).
  - destruct (_ || _); [| discriminate].
    destruct (decode_oauth_error _ _); discriminate.
  - destruct (decode_token _ _); [congruence | discriminate].
Qed.

Lemma makeRequest_result self verb uriPath body options net result :
  done (makeRequest self verb uriPath body options net) = Invoked None (Some result) →
  ∃ resp, net = Response resp ∧ decode_token (respData resp) options = Ret result.
Proof.
  unfold makeRequest. destruct (requestor _); [| discriminate].
  destruct net as [err | resp]; [discriminate |].
  destruct (requestComplete resp options) as [a b|] eqn:Hrc; [| discriminate].
  simpl. intros [= -> ->]. eauto using requestComplete_result.
Qed.

Lemma decode_token_token_type data options result g :
  decode_token data options = Ret result →
  grantType options = Some g → truthy g = true →
  get "token_type" result = Ret (Some g).
Proof.
  intros Hdec Hg Htruthy. unfold decode_token in Hdec. rewrite Hg in Hdec.
  simpl in Hdec. rewrite Htruthy in Hdec.
  destruct (JSON.parse data) as [json|]; simpl in Hdec; [| discriminate].
  destruct (get "expires_in" json) as [ei|]; simpl in Hdec; [| discriminate].
  destruct (if truthy_opt ei then _ else _) as [j1|]; simpl in Hdec; [| discriminate].
  destruct (set "token_type" g j1) as [j2|] eqn:Hj2; simpl in Hdec; [| discriminate].
  pose proof (get_set_eq _ _ _ _ Hj2) as Hg2.
  destruct (get "attributes" j2) as [attrs|]; simpl in Hdec; [| discriminate].
  destruct (truthy_opt attrs).
  - destruct (JSON.parse _) as [a|]; simpl in Hdec; [| discriminate].
    by rewrite (get_set_ne "token_type" "attributes" _ _ _ ltac:(discriminate) Hdec).
  - by injection Hdec as <-.
Qed.

Lemma remap_grant_success c result :
  remap_grant c = Invoked None (Some result) → c = Invoked None (Some result).
Proof.
  destruct c as [[err|] r|]; simpl; try done.
  destruct (_ || _); [done |]. destruct (invalid_redirect_uri _); done.
Qed.

Lemma remap_scope_success c result :
  remap_scope c = Invoked None (Some result) → c = Invoked None (Some result).
Proof.
  destruct c as [[err|] r|]; simpl; try done. destruct (is_string _ _); done.
Qed.

(** X5. A token that one of the four grant operations hands to the
    callback carries the name of the grant as its [token_type], whatever
    type the backend reported. *)
Theorem grant_token_type (self : spi) (options : options) (net : backend)
    (result : jsval) :
  (done (createTokenClientCredentials self options net) = Invoked None (Some result) →
   get "token_type" result = Ret (Some (JStr "client_credentials")))
  ∧ (done (createTokenPasswordCredentials self options net) = Invoked None (Some result) →
     get "token_type" result = Ret (Some (JStr "password")))
  ∧ (done (createTokenAuthorizationCode self options net) = Invoked None (Some result) →
     get "token_type" result = Ret (Some (JStr "authorization_code")))
  ∧ (done (refreshToken_ self options net) = Invoked None (Some result) →
     get "token_type" result = Ret (Some (JStr "refresh_token"))).
Proof.
  repeat split.
  - intros (resp & _ & Hdec)%makeRequest_result.
    exact (decode_token_token_type _ _ _ _ Hdec eq_refl eq_refl).
  - intros (resp & _ & Hdec)%makeRequest_result.
    exact (decode_token_token_type _ _ _ _ Hdec eq_refl eq_refl).
  - unfold createTokenAuthorizationCode, with_done. cbn [done].
    intros (resp & _ & Hdec)%remap_grant_success%makeRequest_result.
    exact (decode_token_token_type _ _ _ _ Hdec eq_refl eq_refl).
  - unfold refreshToken_, with_done. cbn [done].
    intros (resp & _ & Hdec)%remap_scope_success%makeRequest_result.
    exact (decode_token_token_type _ _ _ _ Hdec eq_refl eq_refl).
Qed.

Lemma grant_token_type_witness :
  let net := Response (reply 200 []
    (Str.q "{'access_token':'tok','token_type':'BearerToken','refresh_token':'r2'}")) in
  get "token_type" (JObj [("access_token", JStr "tok"); ("token_type", JStr "refresh_token");
                          ("refresh_token", JStr "r2")])
  = Ret (Some (JStr "refresh_token")).
Proof.
  intros net.
  apply (proj2 (proj2 (proj2 (grant_token_type example_spi example_options net _)))).
  vm_compute. reflexivity.
Defined.

(** X6. The [attributes] of a token response below 300, when the backend
    sends a value for them that is not empty: if that value decodes as JSON,
    the result carries the decoded value in its place; if it does not, the
    whole response is given up and the callback receives neither a result nor
    an error. *)
Theorem token_attributes (resp : response) (options : options) (json a : jsval) :
  resp_failure resp = None →
  resp_statusCode resp < 300 →
  JSON.parse (body_of resp) = Ret json →
  get "attributes" json = Ret (Some a) →
  truthy a = true →
  match JSON.parse (to_string a) with
  | Ret decoded =>
      ∃ result, requestComplete resp options = Invoked None (Some result)
                ∧ get "attributes" result = Ret (Some decoded)
  | Throw _ => requestComplete resp options = Invoked None None
  end.
Proof.
  intros Hend Hlt Hparse Hattrs Htruthy. rewrite <- respData_body in Hparse.
  rewrite (requestComplete_success _ _ Hend Hlt).
  unfold decode_token. rewrite Hparse. simpl.
  assert (Hget : ∀ k, ∃ x, get k json = Ret x).
  { destruct json; simpl in *; try discriminate; eauto. }
  destruct (Hget "expires_in") as [ei ->]. simpl.
  assert (H1 : ∃ j1, (if truthy_opt ei
                      then set "expires_in" (JNum (parseInt (default JNull ei))) json
                      else Ret json) = Ret j1
                     ∧ get "attributes" j1 = Ret (Some a)).
  { destruct (truthy_opt ei); [| eauto].
    destruct (get_Some_set "attributes" "expires_in"
                (JNum (parseInt (default JNull ei))) _ _ Hattrs) as [j1 Hj1].
    exists j1. split; [exact Hj1 |].
    by rewrite (get_set_ne "attributes" "expires_in" _ _ _ ltac:(discriminate) Hj1). }
  destruct H1 as (j1 & -> & Ha1). simpl.
  assert (H2 : ∃ j2, (if truthy_opt (grantType options)
                      then set "token_type" (default JNull (grantType options)) j1
                      else Ret j1) = Ret j2
                     ∧ get "attributes" j2 = Ret (Some a)).
  { destruct (truthy_opt (grantType options)); [| eauto].
    destruct (get_Some_set "attributes" "token_type"
                (default JNull (grantType options)) _ _ Ha1) as [j2 Hj2].
    exists j2. split; [exact Hj2 |].
    by rewrite (get_set_ne "attributes" "token_type" _ _ _ ltac:(discriminate) Hj2). }
  destruct H2 as (j2 & -> & Ha2). simpl. rewrite Ha2. simpl. rewrite Htruthy.
  destruct (JSON.parse (to_string a)) as [decoded|]; simpl; [| reflexivity].
  destruct (get_Some_set "attributes" "attributes" decoded _ _ Ha2) as [j3 Hj3].
  rewrite Hj3. exists j3. split; [reflexivity |]. exact (get_set_eq _ _ _ _ Hj3).
Qed.

Lemma token_attributes_witness :
  requestComplete
    (reply 200 [] (Str.q "{'access_token':'tok','attributes':'tier=gold'}")) example_options
  = Invoked None None.
Proof.
  apply (token_attributes
           (reply 200 [] (Str.q "{'access_token':'tok','attributes':'tier=gold'}"))
           example_options
           (JObj [("access_token", JStr "tok"); ("attributes", JStr "tier=gold")])
           (JStr "tier=gold") eq_refl); [reflexivity | vm_compute; reflexivity | reflexivity..].
Defined.

(** ** Context variables, once more *)

(** X7. Publishing the headers of a response never removes a variable of
    the request context, and publishing them a second time changes nothing
    more. *)
Theorem setFlowVariables_stable (req : option context) (resp : response) :
  setFlowVariables (setFlowVariables req resp) resp = setFlowVariables req resp
  ∧ (∀ ctx ctx' name,
       req = Some ctx → setFlowVariables req resp = Some ctx' →
       is_Some (ctx !! name) → is_Some (ctx' !! name)).
Proof.
  split.
  - destruct req as [ctx|]; [| reflexivity]. simpl. f_equal.
    apply map_eq. intros name. rewrite !publish_fold.
    case_bool_decide; [| reflexivity].
    destruct (header _ _) as [v|]; [| reflexivity].
    destruct (String.eqb v ""); reflexivity.
  - intros ctx ctx' name -> [= <-] Hsome. rewrite publish_fold.
    case_bool_decide; [| exact Hsome].
    destruct (header _ _) as [v|]; [| exact Hsome].
    destruct (String.eqb v ""); [exact Hsome | eauto].
Qed.

Lemma setFlowVariables_stable_witness :
  let resp := reply 200 [("x-v.a", "1"); ("x-v.b", "")] "" in
  is_Some (({[ "a" := "1"; "b" := "old" ]} : context) !! "b")
  ∧ setFlowVariables (setFlowVariables (Some {[ "b" := "old" ]}) resp) resp
    = setFlowVariables (Some {[ "b" := "old" ]}) resp.
Proof.
  intros resp. split.
  - apply (proj2 (setFlowVariables_stable (Some {[ "b" := "old" ]}) resp)
             {[ "b" := "old" ]} {[ "a" := "1"; "b" := "old" ]} "b" eq_refl).
    + vm_compute. reflexivity.
    + exists "old". vm_compute. reflexivity.
  - apply (proj1 (setFlowVariables_stable (Some {[ "b" := "old" ]}) resp)).
Defined.

(** ** Required scopes *)

Lemma difference_test_ext (l1 l2 : list jsval) (granted : list string) :
  (∀ x, x ∈ l1 ↔ x ∈ l2) →
  (length (Underscore.difference l1 granted) =? 0)%nat
  = (length (Underscore.difference l2 granted) =? 0)%nat.
Proof.
  intros Hext. apply eq_true_iff_eq. rewrite !difference_empty_test.
  split; intros H r Hr; apply H, Hext, Hr.
Qed.

(** X8. Verification looks at the required scopes as a set: two ways of
    giving them (a string or an array, in any order, with or without
    repetitions) that name the same scopes lead to the same call of the
    callback on every response. *)
Theorem required_scopes_as_set (resp : response) (r1 r2 : option jsval)
    (l1 l2 : list jsval) :
  required_scopes r1 = Ret l1 →
  required_scopes r2 = Ret l2 →
  (∀ x, x ∈ l1 ↔ x ∈ l2) →
  verifyRequestComplete resp r1 = verifyRequestComplete resp r2.
Proof.
  intros H1 H2 Hext. unfold verifyRequestComplete, check_scopes.
  rewrite H1, H2. simpl.
  destruct (resp_failure resp); [reflexivity |].
  destruct (negb _); [reflexivity |].
  destruct (granted_scopes _) as [granted|]; simpl; [| reflexivity].
  by rewrite (difference_test_ext l1 l2 granted Hext).
Qed.

Lemma required_scopes_as_set_witness :
  let resp := reply 200 [] "scope=read+write" in
  verifyRequestComplete resp (Some (JStr "write read write"))
  = verifyRequestComplete resp (Some (JArr [JStr "read"; JStr "write"] [])).
Proof.
  intros resp.
  apply (required_scopes_as_set resp (Some (JStr "write read write"))
           (Some (JArr [JStr "read"; JStr "write"] []))
           [JStr "write"; JStr "read"; JStr "write"]
           [JStr "read"; JStr "write"] eq_refl eq_refl).
  intros x. rewrite !elem_of_cons, !elem_of_nil. tauto.
Defined.

(** X9. Without required scopes ([undefined], an empty string or an empty
    array), a response that has ended never makes the callback receive the
    error [invalid_scope]: whatever error it receives has no [errorCode]. *)
Theorem no_required_scopes (resp : response) (requiredScopes : option jsval)
    (err : Error) (result : option jsval) :
  resp_failure resp = None →
  required_scopes requiredScopes = Ret [] →
  verifyRequestComplete resp requiredScopes = Invoked (Some err) result →
  err_errorCode err = None.
Proof.
  intros Hend Hreq. unfold verifyRequestComplete, check_scopes.
  rewrite Hend, Hreq. simpl.
  destruct (negb _); [intros [= <- <-]; reflexivity |].
  destruct (granted_scopes _) as [granted|]; simpl; [| discriminate].
  destruct (truthy_opt _); [| discriminate].
  destruct (JSON.parse _); simpl; discriminate.
Qed.

Lemma no_required_scopes_witness :
  err_errorCode (mkError (Some (JStr "expired")) (Some 401) None None) = None.
Proof.
  apply (no_required_scopes (reply 401 [] "expired") (Some (JStr "")) _ None
           eq_refl eq_refl).
  vm_compute. reflexivity.
Defined.

(** ** The requests that are sent *)

Lemma starts_with_append (p s : string) : Str.starts_with p (p +:+ s) = true.
Proof.
  induction p as [|a p IH]; [reflexivity |].
  change (Str.starts_with (String a p) (String a (p +:+ s)) = true).
  simpl. by rewrite decide_True.
Qed.

Lemma makeRequest_wire self verb uriPath body options net w :
  sent (makeRequest self verb uriPath body options net) = Some w →
  requestor (Url.protocol (uri self +:+ uriPath)) = Some (via w)
  ∧ href w = uri self +:+ uriPath
  ∧ method w = verb
  ∧ payload w = (if String.eqb body "" then None else Some body)
  ∧ headers w =
      [("Authorization",
        JStr ("Basic " +:+ Base64.encode (to_string_opt (clientId options) +:+ ":" +:+
                                          to_string_opt (clientSecret options))));
       ("x-DNA-Api-Key", JStr (key self))]
      ++ opt_header "x-DNA-Token-Lifetime" (tokenLifetime options)
           (default JNull (tokenLifetime options))
      ++ opt_header "x-DNA-Token-Attributes" (attributes options)
           (JStr (JSON.stringify (default JNull (attributes options))))
      ++ (if String.eqb body "" then []
          else [("Content-Type", JStr "application/x-www-form-urlencoded")]).
Proof.
  unfold makeRequest. destruct (requestor _) as [t|]; [| discriminate].
  destruct net as [err | resp]; [intros [= <-]; done |].
  destruct (requestComplete resp options); intros [= <-]; done.
Qed.

Lemma makeGetRequest_wire self uriPath qs options net w :
  sent (makeGetRequest self uriPath qs options net) = Some w →
  requestor (Url.protocol (uri self +:+ uriPath +:+ "?" +:+ qs)) = Some (via w)
  ∧ href w = uri self +:+ uriPath +:+ "?" +:+ qs
  ∧ method w = "GET"
  ∧ payload w = None
  ∧ headers w = [("x-DNA-Api-Key", JStr (key self))].
Proof.
  unfold makeGetRequest. destruct (requestor _) as [t|]; [| discriminate].
  destruct net as [err | resp]; [intros [= <-]; done |].
  destruct (getRequestComplete resp options); intros [= <-]; done.
Qed.

Lemma post_headers_lookup (auth k : jsval) (tl at_ : option jsval) (x y : jsval) (body : string) :
  let hs := [("Authorization", auth); ("x-DNA-Api-Key", k)]
            ++ opt_header "x-DNA-Token-Lifetime" tl x
            ++ opt_header "x-DNA-Token-Attributes" at_ y
            ++ (if String.eqb body "" then []
                else [("Content-Type", JStr "application/x-www-form-urlencoded")]) in
  lookup_prop "Authorization" hs = Some auth
  ∧ lookup_prop "x-DNA-Api-Key" hs = Some k
  ∧ lookup_prop "x-DNA-Token-Lifetime" hs = (if truthy_opt tl then Some x else None)
  ∧ lookup_prop "x-DNA-Token-Attributes" hs = (if truthy_opt at_ then Some y else None)
  ∧ lookup_prop "Content-Type" hs =
      (if String.eqb body "" then None
       else Some (JStr "application/x-www-form-urlencoded")).
Proof.
  unfold opt_header.
  destruct (truthy_opt tl), (truthy_opt at_), (String.eqb body ""); repeat split.
Qed.

(** X10. Every request that an operation puts on the network goes to a URL
    under the configured base URI, over the transport that the scheme of that
    URL names, and carries the API key in [x-DNA-Api-Key].  A GET has no body
    and no [Content-Type]; a POST has the form [Content-Type] exactly when it
    has a body. *)
Theorem every_request (self : spi) (op : operation) (net : backend) (w : wire) :
  sent (run self op net) = Some w →
  Str.starts_with (uri self) (href w) = true
  ∧ requestor (Url.protocol (href w)) = Some (via w)
  ∧ lookup_prop "x-DNA-Api-Key" (headers w) = Some (JStr (key self))
  ∧ (method w = "GET" ∧ payload w = None ∧ lookup_prop "Content-Type" (headers w) = None
     ∨ method w = "POST"
       ∧ (payload w = None ↔ lookup_prop "Content-Type" (headers w) = None)).
Proof.
  assert (Hpost : ∀ verb uriPath body options,
            verb = "POST" →
            sent (makeRequest self verb uriPath body options net) = Some w →
            Str.starts_with (uri self) (href w) = true
            ∧ requestor (Url.protocol (href w)) = Some (via w)
            ∧ lookup_prop "x-DNA-Api-Key" (headers w) = Some (JStr (key self))
            ∧ (method w = "GET" ∧ payload w = None
               ∧ lookup_prop "Content-Type" (headers w) = None
               ∨ method w = "POST"
                 ∧ (payload w = None ↔ lookup_prop "Content-Type" (headers w) = None))).
  { intros verb uriPath body options -> (Hvia & Hhref & Hm & Hp & Hh)%makeRequest_wire.
    rewrite Hhref, Hp, Hh.
    match goal with |- context [opt_header _ ?tl ?x ++ opt_header _ ?a ?y ++ _] =>
      pose proof (post_headers_lookup
                    (JStr ("Basic " +:+ Base64.encode (to_string_opt (clientId options) +:+ ":" +:+
                                                       to_string_opt (clientSecret options))))
                    (JStr (key self)) tl a x y body) as (_ & Hk & _ & _ & Hct) end.
    cbv zeta in Hk, Hct. rewrite Hk, Hct.
    split; [apply starts_with_append |]. split; [exact Hvia |]. split; [reflexivity |].
    right. split; [exact Hm |]. destruct (String.eqb body ""); split; done. }
  assert (Hget : ∀ uriPath qs options,
            sent (makeGetRequest self uriPath qs options net) = Some w →
            Str.starts_with (uri self) (href w) = true
            ∧ requestor (Url.protocol (href w)) = Some (via w)
            ∧ lookup_prop "x-DNA-Api-Key" (headers w) = Some (JStr (key self))
            ∧ (method w = "GET" ∧ payload w = None
               ∧ lookup_prop "Content-Type" (headers w) = None
               ∨ method w = "POST"
                 ∧ (payload w = None ↔ lookup_prop "Content-Type" (headers w) = None))).
  { intros uriPath qs options (Hvia & Hhref & Hm & Hp & Hh)%makeGetRequest_wire.
    rewrite Hhref, Hp, Hh.
    split; [apply starts_with_append |]. split; [exact Hvia |]. split; [reflexivity |].
    left. done. }
  destruct op as [o|o|o|o|o|o|o|t s];
    unfold run, createTokenClientCredentials, createTokenPasswordCredentials,
      createTokenAuthorizationCode, authorization_code_request, generateAuthorizationCode,
      createTokenImplicitGrant, refreshToken_, refresh_request, invalidateToken;
    cbv zeta; unfold with_done; cbn [sent];
    try (apply Hpost; reflexivity); try apply Hget.
  unfold verifyToken. cbv zeta.
  destruct (requestor (Url.protocol (href_of_verify self s))) as [tr|] eqn:Hreq;
    cbn [sent]; [| discriminate].
  intros [= <-]. cbn [href via headers method payload].
  split; [apply starts_with_append |]. split; [exact Hreq |]. split; [reflexivity |].
  left. done.
Qed.

Lemma every_request_witness :
  let w := mkWire https "https://api.example.com/oauth/tokentypes/all/verify?scope=read"
             "GET" [("Authorization", JStr "Bearer t0ken"); ("x-DNA-Api-Key", JStr "k3y")]
             None in
  Str.starts_with (uri example_spi) (href w) = true
  ∧ requestor (Url.protocol (href w)) = Some (via w)
  ∧ lookup_prop "x-DNA-Api-Key" (headers w) = Some (JStr (key example_spi))
  ∧ (method w = "GET" ∧ payload w = None ∧ lookup_prop "Content-Type" (headers w) = None
     ∨ method w = "POST"
       ∧ (payload w = None ↔ lookup_prop "Content-Type" (headers w) = None)).
Proof.
  intros w.
  apply (every_request example_spi (VerifyToken (Some (JStr "t0ken")) (Some (JStr "read")))
           (TransportError (new_Error "reset")) w).
  vm_compute. reflexivity.
Defined.

(** ** The credentials of a POST *)

Lemma code_range (c : ascii) : 0 ≤ Str.code c < 256.
Proof.
  unfold Str.code. pose proof (N_ascii_bounded c). lia.
Qed.

Lemma chr_code (c : ascii) : Str.chr (Str.code c) = c.
Proof. unfold Str.chr, Str.code. rewrite N2Z.id. apply ascii_N_embedding. Qed.

Lemma sextet_table :
  forallb (λ z, bool_decide (unsextet (Base64.sextet z) = Some z)
                && negb (bool_decide (Base64.sextet z = "="%char)))
    (seqZ 0 64) = true.
Proof. vm_compute. reflexivity. Qed.

Lemma unsextet_sextet (z : Z) :
  0 ≤ z < 64 → unsextet (Base64.sextet z) = Some z ∧ Base64.sextet z ≠ "="%char.
Proof.
  intros Hz. pose proof sextet_table as H.
  rewrite forallb_forall in H. specialize (H z).
  rewrite andb_true_iff, negb_true_iff, bool_decide_eq_true, bool_decide_eq_false in H.
  apply H, list_elem_of_In, elem_of_seqZ. lia.
Qed.

Lemma unsextet_sextet_eq (z : Z) : 0 ≤ z < 64 → unsextet (Base64.sextet z) = Some z.
Proof. apply unsextet_sextet. Qed.

Lemma sextet_not_pad (z : Z) : 0 ≤ z < 64 → Base64.sextet z ≠ "="%char.
Proof. apply unsextet_sextet. Qed.

Lemma list_ind3 {A} (P : list A → Prop) :
  P [] → (∀ a, P [a]) → (∀ a b, P [a; b]) →
  (∀ a b c r, P r → P (a :: b :: c :: r)) → ∀ l, P l.
Proof.
  intros H0 H1 H2 H3. fix IH 1.
  intros [|a [|b [|c r]]];
    [exact H0 | exact (H1 a) | exact (H2 a b) | exact (H3 a b c r (IH r))].
Qed.

Lemma chr_eq (z : Z) (c : ascii) : z = Str.code c → Str.chr z = c.
Proof. intros ->. apply chr_code. Qed.

Ltac sextet_range := unfold Str.code in *; Z.div_mod_to_equations; lia.

Lemma base64_bytes_roundtrip (l : list ascii) :
  base64_decode_bytes (Base64.encode_bytes l) = Some l.
Proof.
  induction l as [|a|a b|a b c r IH] using list_ind3; [reflexivity | | |].
  - pose proof (code_range a). cbn [Base64.encode_bytes base64_decode_bytes].
    set (n := Str.code a * 65536).
    rewrite (unsextet_sextet_eq (n / 262144)) by (unfold n; sextet_range).
    rewrite (unsextet_sextet_eq ((n / 4096) mod 64)) by (unfold n; sextet_range).
    cbn -[Z.mul Z.div Z.modulo Z.add Str.chr].
    do 2 f_equal. apply chr_eq. unfold n. sextet_range.
  - pose proof (code_range a). pose proof (code_range b).
    cbn [Base64.encode_bytes base64_decode_bytes].
    set (n := Str.code a * 65536 + Str.code b * 256).
    rewrite (unsextet_sextet_eq (n / 262144)) by (unfold n; sextet_range).
    rewrite (unsextet_sextet_eq ((n / 4096) mod 64)) by (unfold n; sextet_range).
    rewrite (bool_decide_eq_false_2 (Base64.sextet ((n / 64) mod 64) = "="%char))
      by (apply sextet_not_pad; unfold n; sextet_range).
    rewrite (unsextet_sextet_eq ((n / 64) mod 64)) by (unfold n; sextet_range).
    cbn -[Z.mul Z.div Z.modulo Z.add Str.chr].
    f_equal. f_equal; [| f_equal]; apply chr_eq; unfold n; sextet_range.
  - pose proof (code_range a). pose proof (code_range b). pose proof (code_range c).
    cbn [Base64.encode_bytes base64_decode_bytes].
    set (n := Str.code a * 65536 + Str.code b * 256 + Str.code c).
    rewrite (unsextet_sextet_eq (n / 262144)) by (unfold n; sextet_range).
    rewrite (unsextet_sextet_eq ((n / 4096) mod 64)) by (unfold n; sextet_range).
    rewrite (bool_decide_eq_false_2 (Base64.sextet (n mod 64) = "="%char))
      by (apply sextet_not_pad; unfold n; sextet_range).
    rewrite (unsextet_sextet_eq ((n / 64) mod 64)) by (unfold n; sextet_range).
    rewrite (unsextet_sextet_eq (n mod 64)) by (unfold n; sextet_range).
    rewrite IH. cbn -[Z.mul Z.div Z.modulo Z.add Str.chr].
    f_equal. f_equal; [| f_equal; [| f_equal]]; apply chr_eq; unfold n; sextet_range.
Qed.

Lemma base64_roundtrip (s : string) : base64_decode (Base64.encode s) = Some s.
Proof.
  unfold base64_decode, Base64.encode, Str.to_list, Str.of_list.
  rewrite list_ascii_of_string_of_list_ascii, base64_bytes_roundtrip. simpl.
  by rewrite string_of_list_ascii_of_string.
Qed.

(** ** The parameters of a request can be read back *)

Lemma escape_char_table (c : ascii) :
  (Querystring.unreserved c = true → c ≠ "%"%char)
  ∧ (Querystring.unreserved c = false →
     Str.hex_val (Str.hex_digit true (Str.code c / 16)) = Some (Str.code c / 16)
     ∧ Str.hex_val (Str.hex_digit true (Str.code c mod 16)) = Some (Str.code c mod 16)
     ∧ Querystring.unreserved (Str.hex_digit true (Str.code c / 16)) = true
     ∧ Querystring.unreserved (Str.hex_digit true (Str.code c mod 16)) = true).
Proof.
  destruct c as [[] [] [] [] [] [] [] []]; vm_compute;
    (split; [intros H; (discriminate H || discriminate)
            | intros H; try discriminate H; repeat split]).
Qed.

Lemma all_append (q : ascii → bool) (a b : string) :
  Str.all q (a +:+ b) = Str.all q a && Str.all q b.
Proof.
  induction a as [|x a IH]; [reflexivity |].
  change (Str.all q (String x (a +:+ b)) = Str.all q (String x a) && Str.all q b).
  simpl. by rewrite IH, andb_assoc.
Qed.

Lemma escape_all (s : string) : Str.all escaped_char (Querystring.escape s) = true.
Proof.
  induction s as [|c s IH]; [reflexivity |]. simpl.
  destruct (Querystring.unreserved c) eqn:Hc; simpl; rewrite IH.
  - unfold escaped_char. by rewrite Hc.
  - destruct (proj2 (escape_char_table c) Hc) as (_ & _ & H1 & H2).
    unfold escaped_char. by rewrite H1, H2.
Qed.

Lemma unescape_escape (s : string) : Querystring.unescape (Querystring.escape s) = s.
Proof.
  induction s as [|c s IH]; [reflexivity |]. simpl.
  destruct (Querystring.unreserved c) eqn:Hc.
  - simpl. rewrite decide_False by (apply escape_char_table, Hc). by rewrite IH.
  - destruct (proj2 (escape_char_table c) Hc) as (H1 & H2 & _).
    simpl. rewrite H1, H2, IH. f_equal. apply chr_eq.
    pose proof (code_range c). Z.div_mod_to_equations. lia.
Qed.

Section Separators.

Variables (q : ascii → bool) (c : ascii).
Hypothesis not_q : q c = false.

Lemma split_none (s : string) : Str.all q s = true → Str.split c s = [s].
Proof.
  induction s as [|x s IH]; [reflexivity |]. simpl.
  intros [Hx Hs]%andb_true_iff.
  rewrite decide_False by congruence. by rewrite (IH Hs).
Qed.

Lemma split_app (a b : string) :
  Str.all q a = true → Str.split c (a +:+ String c b) = a :: Str.split c b.
Proof.
  induction a as [|x a IH]; intros Ha.
  - change (Str.split c (String c b) = "" :: Str.split c b).
    simpl. by rewrite decide_True.
  - simpl in Ha. apply andb_true_iff in Ha as [Hx Ha].
    change (Str.split c (String x (a +:+ String c b)) = String x a :: Str.split c b).
    simpl. rewrite decide_False by congruence. by rewrite (IH Ha).
Qed.

Lemma cut_app (a b : string) :
  Str.all q a = true → Str.cut c (a +:+ String c b) = Some (a, b).
Proof.
  induction a as [|x a IH]; intros Ha.
  - change (Str.cut c (String c b) = Some ("", b)). simpl. by rewrite decide_True.
  - simpl in Ha. apply andb_true_iff in Ha as [Hx Ha].
    change (Str.cut c (String x (a +:+ String c b)) = Some (String x a, b)).
    simpl. rewrite decide_False by congruence. by rewrite (IH Ha).
Qed.

Lemma split_join (ps : list string) :
  ps ≠ [] → Forall (λ p, Str.all q p = true) ps →
  Str.split c (Str.join (String c "") ps) = ps.
Proof.
  intros Hne Hall. induction Hall as [|p ps Hp Hps IH]; [done |].
  destruct ps as [|p' ps]; [by apply split_none |].
  change (Str.join (String c "") (p :: p' :: ps))
    with (p +:+ String c (Str.join (String c "") (p' :: ps))).
  rewrite split_app by done. by rewrite IH.
Qed.

End Separators.

Lemma plus_to_space_id (s : string) :
  Str.all field_char s = true → Querystring.plus_to_space s = s.
Proof.
  induction s as [|x s IH]; [reflexivity |]. simpl.
  intros [Hx Hs]%andb_true_iff.
  rewrite decide_False by (intros ->; discriminate Hx). by rewrite (IH Hs).
Qed.

Lemma all_weaken (q1 q2 : ascii → bool) (s : string) :
  (∀ c, q1 c = true → q2 c = true) → Str.all q1 s = true → Str.all q2 s = true.
Proof.
  intros Hq. induction s as [|x s IH]; [reflexivity |]. simpl.
  intros [Hx Hs]%andb_true_iff. by rewrite (Hq x Hx), (IH Hs).
Qed.

Lemma pair_string (k v : string) :
  Querystring.pair k (Some (JStr v))
  = Querystring.escape k +:+ String "=" (Querystring.escape v).
Proof. unfold Querystring.pair. simpl. by rewrite append_assoc. Qed.

Lemma pair_all (k v : string) :
  Str.all field_char (Querystring.pair k (Some (JStr v))) = true.
Proof.
  rewrite pair_string, all_append. simpl.
  rewrite !(all_weaken escaped_char field_char) by
    (apply escape_all || (intros c Hc; unfold field_char; by rewrite Hc)).
  reflexivity.
Qed.

Lemma lookup_prop_app_None (k : string) (obj extra : list (string * jsval)) :
  lookup_prop k obj = None → lookup_prop k (obj ++ extra) = lookup_prop k extra.
Proof.
  induction obj as [|[k' v'] obj IH]; [done |]. simpl.
  destruct (decide (k' = k)); [done | exact IH].
Qed.

Lemma add_field_new (k v : string) (obj : list (string * jsval)) :
  lookup_prop k obj = None → Querystring.add_field k v obj = obj ++ [(k, JStr v)].
Proof. unfold Querystring.add_field. by intros ->. Qed.

(** What [querystring.parse] makes of the pairs that [querystring.stringify]
    writes for fields with distinct names. *)
Lemma parse_pairs (fields : list (string * string)) (acc : list (string * jsval)) :
  NoDup (map fst fields) →
  (∀ k, k ∈ map fst fields → lookup_prop k acc = None) →
  fold_left
    (λ obj x,
       let x := Querystring.plus_to_space x in
       let '(kstr, vstr) :=
         match Str.cut "=" x with
         | Some kv => kv
         | None => (x, EmptyString)
         end in
       Querystring.add_field (Querystring.unescape kstr) (Querystring.unescape vstr) obj)
    (map (λ kv, Querystring.pair (fst kv) (snd kv)) (string_fields fields)) acc
  = acc ++ parsed_fields fields.
Proof.
  revert acc. induction fields as [|[k v] fields IH]; intros acc Hnd Hfresh.
  - simpl. by rewrite app_nil_r.
  - apply NoDup_cons in Hnd as [Hk Hnd].
    change (string_fields ((k, v) :: fields))
      with ((k, Some (JStr v)) :: string_fields fields).
    change (parsed_fields ((k, v) :: fields)) with ((k, JStr v) :: parsed_fields fields).
    cbn [map fold_left fst snd].
    rewrite plus_to_space_id by apply pair_all.
    rewrite pair_string, (cut_app escaped_char) by (reflexivity || apply escape_all).
    rewrite !unescape_escape.
    rewrite add_field_new by (apply Hfresh; simpl; apply list_elem_of_here).
    rewrite IH; [by rewrite <- app_assoc | exact Hnd |].
    intros k' Hk'. rewrite lookup_prop_app_None.
    + simpl. rewrite decide_False; [done |]. intros ->. contradiction.
    + apply Hfresh. simpl. by right.
Qed.

Lemma append_sep_nonempty (a b : string) (c : ascii) : a +:+ String c b ≠ "".
Proof. destruct a; discriminate. Qed.

(** The round trip of [querystring]: fields with distinct names and string
    values, written and read back. *)
Lemma querystring_roundtrip (fields : list (string * string)) :
  fields ≠ [] → NoDup (map fst fields) → (length fields ≤ Querystring.maxKeys)%nat →
  Querystring.parse (Querystring.stringify (string_fields fields)) = parsed_fields fields.
Proof.
  intros Hne Hnd Hlen. unfold Querystring.parse, Querystring.stringify.
  set (ps := map (λ kv, Querystring.pair (fst kv) (snd kv)) (string_fields fields)).
  assert (Hps : Forall (λ p, Str.all field_char p = true) ps).
  { unfold ps, string_fields. rewrite map_map. apply Forall_map, Forall_forall.
    intros [k v] _. apply pair_all. }
  assert (Hps_ne : ps ≠ []) by (destruct fields; done).
  assert (Hjoin : String.eqb (Str.join "&" ps) "" = false).
  { destruct fields as [|[k v] fields]; [done |].
    unfold ps, string_fields. cbn [map fst snd].
    apply join_cons_nonempty. rewrite pair_string. apply append_sep_nonempty. }
  rewrite Hjoin, (split_join field_char) by done.
  rewrite take_ge by (unfold ps, string_fields; rewrite !length_map; lia).
  exact (parse_pairs fields [] Hnd (λ _ _, eq_refl)).
Qed.

(** X11. A request of one of the five POST operations authenticates the
    client with [Authorization: Basic] followed by the base64 text of
    [clientId:clientSecret], which decodes back to exactly that; it carries
    [x-DNA-Token-Lifetime] with the value of [tokenLifetime] when that is
    truthy (so not for 0) and [x-DNA-Token-Attributes] with the JSON text of
    [attributes] when that is truthy, and neither header otherwise. *)
Theorem post_credentials (self : spi) (op : operation) (o : options) (net : backend)
    (w : wire) :
  post_options op = Some o →
  sent (run self op net) = Some w →
  method w = "POST"
  ∧ (∃ cred,
       lookup_prop "Authorization" (headers w) = Some (JStr ("Basic " +:+ cred))
       ∧ base64_decode cred
         = Some (to_string_opt (clientId o) +:+ ":" +:+ to_string_opt (clientSecret o)))
  ∧ lookup_prop "x-DNA-Token-Lifetime" (headers w)
    = (if truthy_opt (tokenLifetime o) then tokenLifetime o else None)
  ∧ lookup_prop "x-DNA-Token-Attributes" (headers w)
    = (if truthy_opt (attributes o)
       then Some (JStr (JSON.stringify (default JNull (attributes o)))) else None).
Proof.
  assert (Hpost : ∀ uriPath body options,
            clientId options = clientId o → clientSecret options = clientSecret o →
            tokenLifetime options = tokenLifetime o → attributes options = attributes o →
            sent (makeRequest self "POST" uriPath body options net) = Some w →
            method w = "POST"
            ∧ (∃ cred,
                 lookup_prop "Authorization" (headers w) = Some (JStr ("Basic " +:+ cred))
                 ∧ base64_decode cred
                   = Some (to_string_opt (clientId o) +:+ ":" +:+
                           to_string_opt (clientSecret o)))
            ∧ lookup_prop "x-DNA-Token-Lifetime" (headers w)
              = (if truthy_opt (tokenLifetime o) then tokenLifetime o else None)
            ∧ lookup_prop "x-DNA-Token-Attributes" (headers w)
              = (if truthy_opt (attributes o)
                 then Some (JStr (JSON.stringify (default JNull (attributes o))))
                 else None)).
  { intros uriPath body options Hid Hsecret Htl Hat
      (_ & _ & Hm & _ & Hh)%makeRequest_wire.
    rewrite Hid, Hsecret, Htl, Hat in Hh. rewrite Hh.
    match goal with |- context [opt_header _ ?tl ?x ++ opt_header _ ?a ?y ++ ?ct] =>
      match ct with (if String.eqb ?b _ then _ else _) =>
        pose proof (post_headers_lookup
                      (JStr ("Basic " +:+ Base64.encode (to_string_opt (clientId o) +:+ ":" +:+
                                                         to_string_opt (clientSecret o))))
                      (JStr (key self)) tl a x y b) as (Hauth & _ & Hlt & Hattr & _)
      end end.
    cbv zeta in Hauth, Hlt, Hattr. rewrite Hauth, Hlt, Hattr.
    split; [exact Hm |]. split; [eexists; split; [reflexivity | apply base64_roundtrip] |].
    split; [| reflexivity].
    destruct (tokenLifetime o) as [v|]; simpl; [| reflexivity].
    destruct (truthy v); reflexivity. }
  destruct op as [o'|o'|o'|o'|o'|o'|o'|t s]; intros [= ->];
    unfold run, createTokenClientCredentials, createTokenPasswordCredentials,
      createTokenAuthorizationCode, authorization_code_request,
      refreshToken_, refresh_request, invalidateToken;
    cbv zeta; unfold with_done; cbn [sent]; apply Hpost; reflexivity.
Qed.

Lemma post_credentials_witness :
  let o := mkOptions (Some (JStr "id")) (Some (JStr "s3:cret")) None (Some (JNum (Fin 0 0)))
             None None None None None None (Some (JStr "r3fresh")) None None None None in
  let w := mkWire https "https://api.example.com/oauth/tokentypes/all/refresh" "POST"
             [("Authorization", JStr "Basic aWQ6czM6Y3JldA==");
              ("x-DNA-Api-Key", JStr "k3y");
              ("Content-Type", JStr "application/x-www-form-urlencoded")]
             (Some "grant_type=refresh_token&refresh_token=r3fresh") in
  (∃ cred,
     lookup_prop "Authorization" (headers w) = Some (JStr ("Basic " +:+ cred))
     ∧ base64_decode cred = Some "id:s3:cret")
  ∧ lookup_prop "x-DNA-Token-Lifetime" (headers w) = None.
Proof.
  intros o w.
  destruct (post_credentials example_spi (RefreshToken o) o
              (TransportError (new_Error "reset")) w eq_refl) as (_ & Hcred & Hlt & _).
  { vm_compute. reflexivity. }
  split; [exact Hcred | exact Hlt].
Defined.

Lemma when_set_string (k : string) (v : option string) :
  when_set k (JStr <$> v) = string_fields (opt_field k v).
Proof.
  unfold when_set, opt_field. destruct v as [s|]; [| reflexivity]. simpl.
  destruct (String.eqb s ""); reflexivity.
Qed.

Lemma when_set_unset (k : string) (v : option jsval) :
  truthy_opt v = false → when_set k v = [].
Proof. unfold when_set. by intros ->. Qed.

Lemma stringify_nonempty (fields : list (string * string)) :
  fields ≠ [] → String.eqb (Querystring.stringify (string_fields fields)) "" = false.
Proof.
  destruct fields as [|[k v] fields]; [done |]. intros _.
  unfold Querystring.stringify, string_fields. cbn [map fst snd].
  apply join_cons_nonempty. rewrite pair_string. apply append_sep_nonempty.
Qed.

Ltac distinct_names :=
  match goal with |- ?G => apply (bool_decide_unpack G) end; vm_compute; exact I.

(** X12. The body of the password grant can be read back: whatever
    characters the user name, the password and the scope hold,
    [querystring.parse] of the body gives [grant_type], [username],
    [password] and (when set) [scope] with exactly these values. *)
Theorem password_body_decodes (self : spi) (options : options) (net : backend) (w : wire)
    (u p : string) (sc : option string) :
  sent (createTokenPasswordCredentials self options net) = Some w →
  username options = Some (JStr u) →
  password options = Some (JStr p) →
  truthy_opt (attributes options) = false →
  scope options = JStr <$> sc →
  ∃ body,
    payload w = Some body
    ∧ Querystring.parse body
      = parsed_fields ([("grant_type", "password"); ("username", u); ("password", p)]
                       ++ opt_field "scope" sc).
Proof.
  intros (_ & _ & _ & Hp & _)%makeRequest_wire Hu Hpw Hat Hsc.
  rewrite Hu, Hpw, Hsc, (when_set_unset _ _ Hat), when_set_string in Hp.
  change ([("grant_type", Some (JStr "password")); ("username", Some (JStr u));
           ("password", Some (JStr p))] ++ [] ++ string_fields (opt_field "scope" sc))
    with (string_fields ([("grant_type", "password"); ("username", u); ("password", p)]
                         ++ opt_field "scope" sc)) in Hp.
  rewrite stringify_nonempty in Hp by done.
  eexists. split; [exact Hp |].
  apply querystring_roundtrip; [done | |].
  - unfold opt_field. destruct sc as [s|]; [destruct (String.eqb s "") |]; distinct_names.
  - unfold opt_field. destruct sc as [s|]; [destruct (String.eqb s "") |];
      vm_compute; lia.
Qed.

Lemma password_body_decodes_witness :
  let options := mkOptions (Some (JStr "id")) (Some (JStr "secret")) (Some (JStr "read write"))
                   None None (Some (JStr "al&ice=1")) (Some (JStr "p+w%20 d")) None None None
                   None None None None None in
  ∃ body,
    Some "grant_type=password&username=al%26ice%3D1&password=p%2Bw%2520%20d&scope=read%20write"
    = Some body
    ∧ Querystring.parse body
      = parsed_fields ([("grant_type", "password"); ("username", "al&ice=1");
                        ("password", "p+w%20 d")] ++ opt_field "scope" (Some "read write")).
Proof.
  intros options.
  apply (password_body_decodes example_spi options (TransportError (new_Error "reset"))
           (mkWire https "https://api.example.com/oauth/tokentypes/password/tokens" "POST"
              [("Authorization", JStr "Basic aWQ6c2VjcmV0"); ("x-DNA-Api-Key", JStr "k3y");
               ("Content-Type", JStr "application/x-www-form-urlencoded")]
              (Some "grant_type=password&username=al%26ice%3D1&password=p%2Bw%2520%20d&scope=read%20write"))
           "al&ice=1" "p+w%20 d" (Some "read write")); vm_compute; reflexivity.
Defined.

(** X13. The body of the authorization-code exchange can be read back in
    the same way: [grant_type], [code], and [redirect_uri] and [client_id]
    when set, with exactly the values given, whatever characters a redirect
    URI holds. *)
Theorem authorization_code_body_decodes (self : spi) (options : options) (net : backend)
    (w : wire) (c : string) (ru cid : option string) :
  sent (createTokenAuthorizationCode self options net) = Some w →
  code options = Some (JStr c) →
  redirectUri options = JStr <$> ru →
  clientId options = JStr <$> cid →
  ∃ body,
    payload w = Some body
    ∧ Querystring.parse body
      = parsed_fields ([("grant_type", "authorization_code"); ("code", c)]
                       ++ opt_field "redirect_uri" ru ++ opt_field "client_id" cid).
Proof.
  unfold createTokenAuthorizationCode, authorization_code_request, with_done. cbn [sent].
  intros (_ & _ & _ & Hp & _)%makeRequest_wire Hc Hru Hcid.
  rewrite Hc, Hru, Hcid, !when_set_string in Hp.
  change ([("grant_type", Some (JStr "authorization_code")); ("code", Some (JStr c))]
          ++ string_fields (opt_field "redirect_uri" ru)
          ++ string_fields (opt_field "client_id" cid))
    with (string_fields [("grant_type", "authorization_code"); ("code", c)]
          ++ string_fields (opt_field "redirect_uri" ru)
          ++ string_fields (opt_field "client_id" cid)) in Hp.
  unfold string_fields in Hp. rewrite <- !map_app in Hp.
  fold (string_fields ([("grant_type", "authorization_code"); ("code", c)]
                       ++ opt_field "redirect_uri" ru ++ opt_field "client_id" cid)) in Hp.
  rewrite stringify_nonempty in Hp by done.
  eexists. split; [exact Hp |].
  apply querystring_roundtrip; [done | |].
  - unfold opt_field. destruct ru as [r|], cid as [i|];
      repeat match goal with |- context [String.eqb ?s ""] => destruct (String.eqb s "") end;
      distinct_names.
  - unfold opt_field. destruct ru as [r|], cid as [i|];
      repeat match goal with |- context [String.eqb ?s ""] => destruct (String.eqb s "") end;
      vm_compute; lia.
Qed.

Lemma authorization_code_body_decodes_witness :
  let options := mkOptions (Some (JStr "id")) (Some (JStr "secret")) None None None None None
                   (Some (JStr "c0de")) (Some (JStr "https://app/cb?a=1&b=2")) None
                   None None None None None in
  ∃ body,
    Some "grant_type=authorization_code&code=c0de&redirect_uri=https%3A%2F%2Fapp%2Fcb%3Fa%3D1%26b%3D2&client_id=id"
    = Some body
    ∧ Querystring.parse body
      = parsed_fields ([("grant_type", "authorization_code"); ("code", "c0de")]
                       ++ opt_field "redirect_uri" (Some "https://app/cb?a=1&b=2")
                       ++ opt_field "client_id" (Some "id")).
Proof.
  intros options.
  apply (authorization_code_body_decodes example_spi options
           (TransportError (new_Error "reset"))
           (mkWire https "https://api.example.com/oauth/tokentypes/authcode/tokens" "POST"
              [("Authorization", JStr "Basic aWQ6c2VjcmV0"); ("x-DNA-Api-Key", JStr "k3y");
               ("Content-Type", JStr "application/x-www-form-urlencoded")]
              (Some "grant_type=authorization_code&code=c0de&redirect_uri=https%3A%2F%2Fapp%2Fcb%3Fa%3D1%26b%3D2&client_id=id"))
           "c0de" (Some "https://app/cb?a=1&b=2") (Some "id")); vm_compute; reflexivity.
Defined.

(** ** What a token response keeps *)

(** X14. A token handed to the callback has every field of the backend's
    JSON as the backend sent it, apart from [expires_in], [token_type] and
    [attributes]; its [expires_in] is the number that [parseInt] reads from
    the backend's value when that value is truthy, and the backend's value
    itself ([0], an empty string, [null], nothing) when it is not. *)
Theorem token_fields_kept (resp : response) (options : options) (json result : jsval) :
  requestComplete resp options = Invoked None (Some result) →
  JSON.parse (body_of resp) = Ret json →
  (∀ k, k ≠ "expires_in" → k ≠ "token_type" → k ≠ "attributes" →
        get k result = get k json)
  ∧ (∀ ei, get "expires_in" json = Ret ei →
           get "expires_in" result
           = Ret (if truthy_opt ei then Some (JNum (parseInt (default JNull ei))) else ei)).
Proof.
  intros Hdec%requestComplete_result Hparse. rewrite <- respData_body in Hparse.
  unfold decode_token in Hdec. rewrite Hparse in Hdec. simpl in Hdec.
  destruct (get "expires_in" json) as [ei|] eqn:Hei; simpl in Hdec; [| discriminate].
  destruct (if truthy_opt ei then _ else _) as [j1|] eqn:Hj1; simpl in Hdec; [| discriminate].
  destruct (if truthy_opt (grantType options) then _ else _) as [j2|] eqn:Hj2;
    simpl in Hdec; [| discriminate].
  destruct (get "attributes" j2) as [attrs|]; simpl in Hdec; [| discriminate].
  assert (H1 : (∀ k, k ≠ "expires_in" → get k j1 = get k json)
               ∧ get "expires_in" j1
                 = Ret (if truthy_opt ei then Some (JNum (parseInt (default JNull ei)))
                        else ei)).
  { destruct (truthy_opt ei).
    - split; [intros k Hk; exact (get_set_ne _ _ _ _ _ Hk Hj1) |
              exact (get_set_eq _ _ _ _ Hj1)].
    - injection Hj1 as <-. done. }
  assert (H2 : ∀ k, k ≠ "token_type" → get k j2 = get k j1).
  { destruct (truthy_opt (grantType options)).
    - intros k Hk. exact (get_set_ne _ _ _ _ _ Hk Hj2).
    - injection Hj2 as <-. done. }
  assert (H3 : ∀ k, k ≠ "attributes" → get k result = get k j2).
  { destruct (truthy_opt attrs).
    - destruct (JSON.parse _) as [a|]; simpl in Hdec; [| discriminate].
      intros k Hk. exact (get_set_ne _ _ _ _ _ Hk Hdec).
    - injection Hdec as <-. done. }
  split.
  - intros k Hk1 Hk2 Hk3. by rewrite H3, H2, (proj1 H1).
  - intros ei' [= <-]. by rewrite H3, H2, (proj2 H1).
Qed.

Lemma token_fields_kept_witness :
  let resp := reply 200 []
    (Str.q "{'access_token':'tok','expires_in':0,'token_type':'Bearer'}") in
  get "access_token" (JObj [("access_token", JStr "tok"); ("expires_in", JNum (Fin 0 0));
                            ("token_type", JStr "password")])
  = get "access_token" (JObj [("access_token", JStr "tok"); ("expires_in", JNum (Fin 0 0));
                              ("token_type", JStr "Bearer")]).
Proof.
  intros resp.
  apply (proj1 (token_fields_kept resp (with_grantType "password" example_options)
                  (JObj [("access_token", JStr "tok"); ("expires_in", JNum (Fin 0 0));
                         ("token_type", JStr "Bearer")])
                  (JObj [("access_token", JStr "tok"); ("expires_in", JNum (Fin 0 0));
                         ("token_type", JStr "password")])
                  ltac:(vm_compute; reflexivity) ltac:(vm_compute; reflexivity)));
    discriminate.
Defined.

(** ** Exceptions that leave the handlers *)

Lemma makeRequest_uncaught self verb uriPath body options resp e :
  sent (makeRequest self verb uriPath body options (Response resp)) ≠ None →
  requestComplete resp options = Uncaught e →
  done (makeRequest self verb uriPath body options (Response resp)) = Uncaught e.
Proof.
  unfold makeRequest. destruct (requestor _); [| done]. by intros _ ->.
Qed.

Lemma requestComplete_grantType resp o1 o2 e :
  requestComplete resp o1 = Uncaught e → requestComplete resp o2 = Uncaught e.
Proof.
  unfold requestComplete. destruct (resp_failure resp); [done |].
  destruct (300 <=? _); [done |]. destruct (decode_token _ o1); done.
Qed.

(** X15. A 400 or 401 response whose body is not JSON never reaches the
    callback of a POST operation: the [SyntaxError] of [JSON.parse] leaves the
    handler, no variable is published, and the callback is not called. *)
Theorem oauth_error_not_json (self : spi) (op : operation) (o : options) (resp : response)
    (e : exn) :
  post_options op = Some o →
  sent (run self op (Response resp)) ≠ None →
  resp_failure resp = None →
  resp_statusCode resp = 400 ∨ resp_statusCode resp = 401 →
  JSON.parse (body_of resp) = Throw e →
  done (run self op (Response resp)) = Uncaught e
  ∧ vars (run self op (Response resp)) = request o.
Proof.
  intros Hop Hsent Hend Hst Hparse. rewrite <- respData_body in Hparse.
  assert (Hrc : requestComplete resp o = Uncaught e).
  { rewrite (requestComplete_oauth_error _ _ Hend Hst).
    unfold decode_oauth_error. by rewrite Hparse. }
  assert (Hpost : ∀ verb uriPath body options,
            sent (makeRequest self verb uriPath body options (Response resp)) ≠ None →
            request options = request o →
            done (makeRequest self verb uriPath body options (Response resp)) = Uncaught e
            ∧ vars (makeRequest self verb uriPath body options (Response resp))
              = request o).
  { intros verb uriPath body options Hs Hreq.
    pose proof (makeRequest_uncaught self verb uriPath body options resp e Hs
                  (requestComplete_grantType _ _ _ _ Hrc)) as Hd.
    split; [exact Hd |]. rewrite <- Hreq.
    exact (proj1 (proj2 (makeRequest_vars self verb uriPath body options resp)) e Hd). }
  destruct op as [o'|o'|o'|o'|o'|o'|o'|t s]; try discriminate Hop;
    injection Hop as ->; revert Hsent;
    unfold run, createTokenClientCredentials, createTokenPasswordCredentials,
      createTokenAuthorizationCode, authorization_code_request,
      refreshToken_, refresh_request, invalidateToken;
    cbv zeta; unfold with_done; cbn [sent done vars]; intros Hsent;
    destruct (Hpost _ _ _ _ Hsent eq_refl) as [Hd Hv];
    rewrite Hd; (split; [reflexivity | exact Hv]).
Qed.

Lemma oauth_error_not_json_witness :
  let resp := reply 401 [("x-v.fault", "auth")] "<h1>Unauthorized</h1>" in
  done (run example_spi (CreateTokenPasswordCredentials example_options) (Response resp))
  = Uncaught SyntaxError
  ∧ vars (run example_spi (CreateTokenPasswordCredentials example_options) (Response resp))
    = request example_options.
Proof.
  intros resp.
  apply (oauth_error_not_json example_spi (CreateTokenPasswordCredentials example_options)
           example_options resp SyntaxError eq_refl);
    [vm_compute; discriminate | reflexivity | right; reflexivity | vm_compute; reflexivity].
Defined.

(** X16. A 200 response to [verifyToken] whose [attributes] field is there,
    not empty, and not JSON never reaches the callback either, although the
    required scopes are granted. *)
Theorem verify_attributes_not_json (resp : response) (requiredScopes : option jsval)
    (required : list jsval) (scope_field : option string) (e : exn) :
  resp_failure resp = None →
  resp_statusCode resp = 200 →
  let parsed := Querystring.parse (body_of resp) in
  required_scopes requiredScopes = Ret required →
  lookup_prop "scope" parsed = JStr <$> scope_field →
  (∀ r, r ∈ required → Underscore.contains (granted_of scope_field) r = true) →
  truthy_opt (lookup_prop "attributes" parsed) = true →
  JSON.parse (to_string_opt (lookup_prop "attributes" parsed)) = Throw e →
  verifyRequestComplete resp requiredScopes = Uncaught e.
Proof.
  intros Hend Hok parsed Hreq Hscope Hall Htruthy Hparse.
  unfold parsed in *. rewrite <- respData_body in *.
  rewrite (verifyRequestComplete_ok _ _ Hend Hok). unfold check_scopes.
  rewrite Hreq, (granted_scopes_field _ _ Hscope). simpl.
  rewrite (proj2 (difference_empty_test _ _) Hall). simpl.
  by rewrite Htruthy, Hparse.
Qed.

Lemma verify_attributes_not_json_witness :
  verifyRequestComplete (reply 200 [] "scope=read&attributes=tier%3Dgold") (Some (JStr "read"))
  = Uncaught SyntaxError.
Proof.
  apply (verify_attributes_not_json
           (reply 200 [] "scope=read&attributes=tier%3Dgold") (Some (JStr "read"))
           [JStr "read"] (Some "read") SyntaxError eq_refl eq_refl eq_refl eq_refl);
    [| reflexivity | vm_compute; reflexivity].
  intros r [-> | []%elem_of_nil]%elem_of_cons. reflexivity.
Defined.

(** ** The base URI decides the transport *)

Lemma starts_with_slash (w u x : string) :
  Str.all not_slash w = true →
  Str.starts_with w (u +:+ String "/" x) = Str.starts_with w u.
Proof.
  revert u. induction w as [|a w IH]; intros u Hw; [reflexivity |].
  simpl in Hw. apply andb_true_iff in Hw as [Ha Hw].
  destruct u as [|b u].
  - change (Str.starts_with (String a w) (String "/" x) = false). simpl.
    rewrite decide_False; [done |]. intros ->. discriminate Ha.
  - change (Str.starts_with (String a w) (String b (u +:+ String "/" x))
            = Str.starts_with (String a w) (String b u)).
    simpl. destruct (decide (a = b)); [exact (IH u Hw) | reflexivity].
Qed.

Lemma white_space_table :
  forallb (λ w, Str.all not_slash w && negb (String.eqb w "")) Str.white_space = true.
Proof. vm_compute. reflexivity. Qed.

Lemma drop_prefix_append (w u r : string) :
  Str.starts_with w u = true →
  Str.drop (String.length w) (u +:+ r) = Str.drop (String.length w) u +:+ r
  ∧ (w ≠ "" → String.length (Str.drop (String.length w) u) < String.length u)%nat.
Proof.
  revert u. induction w as [|a w IH]; intros u Hu.
  - split; [reflexivity | done].
  - destruct u as [|b u]; [discriminate |]. simpl in Hu.
    destruct (decide (a = b)); [| discriminate].
    destruct (IH u Hu) as [H1 H2].
    change (Str.drop (String.length w) (u +:+ r) = Str.drop (String.length w) u +:+ r
            ∧ (String a w ≠ "" →
               String.length (Str.drop (String.length w) u) < S (String.length u))%nat).
    split; [exact H1 |]. intros _.
    destruct w; [simpl; lia |]. specialize (H2 ltac:(discriminate)). lia.
Qed.

Lemma strip_one_slash (u x : string) :
  Str.strip_one (u +:+ String "/" x)
  = (λ u', u' +:+ String "/" x) <$> Str.strip_one u
  ∧ (∀ u', Str.strip_one u = Some u' → (String.length u' < String.length u)%nat).
Proof.
  unfold Str.strip_one.
  pose proof white_space_table as Htable. rewrite forallb_forall in Htable.
  assert (Hfind : List.find (λ w, Str.starts_with w (u +:+ String "/" x)) Str.white_space
                  = List.find (λ w, Str.starts_with w u) Str.white_space).
  { revert Htable. generalize Str.white_space. intros l Hl.
    induction l as [|w l IH]; [reflexivity |]. simpl.
    rewrite starts_with_slash.
    - destruct (Str.starts_with w u); [reflexivity |]. apply IH.
      intros w' Hw'. apply Hl. by right.
    - specialize (Hl w (or_introl eq_refl)). by apply andb_true_iff in Hl as [-> _]. }
  rewrite Hfind. clear Hfind.
  destruct (List.find (λ w, Str.starts_with w u) Str.white_space) as [w|] eqn:Hw;
    [| split; [reflexivity | intros u' Hu'; discriminate Hu']].
  apply find_some in Hw as [Hin Hpre]. specialize (Htable w Hin).
  apply andb_true_iff in Htable as [_ Hne%negb_true_iff%String.eqb_neq].
  destruct (drop_prefix_append w u (String "/" x) Hpre) as [Hdrop Hlen].
  split; [simpl; by rewrite Hdrop | intros u' [= <-]; auto].
Qed.

Lemma length_append (a b : string) :
  String.length (a +:+ b) = (String.length a + String.length b)%nat.
Proof.
  induction a as [|c a IH]; [reflexivity |].
  change (S (String.length (a +:+ b)) = S (String.length a + String.length b)).
  by rewrite IH.
Qed.

Lemma trim_left_go_slash (n : nat) :
  ∀ u x m, (String.length u ≤ n)%nat →
           (String.length (u +:+ String "/" x) ≤ m)%nat →
           Str.trim_left_go m (u +:+ String "/" x) = Str.trim_left_go n u +:+ String "/" x.
Proof.
  induction n as [|n IH]; intros u x m Hn Hm.
  - destruct u; [| simpl in Hn; lia].
    destruct m; [reflexivity |]. reflexivity.
  - rewrite length_append in Hm. simpl in Hm.
    destruct m as [|m]; [lia |]. simpl.
    destruct (strip_one_slash u x) as [-> Hlen].
    destruct (Str.strip_one u) as [u'|]; simpl; [| reflexivity].
    specialize (Hlen u' eq_refl).
    apply IH; [lia |]. rewrite length_append. simpl. lia.
Qed.

Lemma trim_left_slash (u x : string) :
  Str.trim_left (u +:+ String "/" x) = Str.trim_left u +:+ String "/" x.
Proof. unfold Str.trim_left. by apply trim_left_go_slash. Qed.

Lemma take_drop_while_stop (p : ascii → bool) (c : ascii) (t x : string) :
  p c = false →
  Str.take_while p (t +:+ String c x) = Str.take_while p t
  ∧ Str.drop_while p (t +:+ String c x) = Str.drop_while p t +:+ String c x.
Proof.
  intros Hc. induction t as [|a t [IH1 IH2]].
  - change (Str.take_while p (String c x) = "" ∧ Str.drop_while p (String c x) = String c x).
    simpl. by rewrite Hc.
  - change (Str.take_while p (String a (t +:+ String c x)) = Str.take_while p (String a t)
            ∧ Str.drop_while p (String a (t +:+ String c x))
              = Str.drop_while p (String a t) +:+ String c x).
    simpl. destruct (p a); [by rewrite IH1, IH2 | done].
Qed.

Lemma protocol_slash (u x : string) :
  Url.protocol (u +:+ String "/" x) = Url.protocol u.
Proof.
  unfold Url.protocol. rewrite trim_left_slash.
  destruct (take_drop_while_stop Url.is_scheme_char "/" (Str.trim_left u) x eq_refl)
    as [-> ->].
  destruct (Str.drop_while Url.is_scheme_char (Str.trim_left u)) as [|c t]; reflexivity.
Qed.

(** X17. Whether an operation reaches the network, and over which
    transport, is decided by the configured base URI alone: with a base URI
    whose scheme is [http:] or [https:] every operation sends its request over
    the transport of that name, whatever the options; with any other base URI
    no operation sends anything. *)
Theorem base_uri_decides (self : spi) (op : operation) (net : backend) :
  match requestor (Url.protocol (uri self)) with
  | Some t => ∃ w, sent (run self op net) = Some w ∧ via w = t
  | None => sent (run self op net) = None
  end.
Proof.
  assert (Hpost : ∀ verb x body options,
            match requestor (Url.protocol (uri self)) with
            | Some t => ∃ w, sent (makeRequest self verb (String "/" x) body options net)
                             = Some w ∧ via w = t
            | None => sent (makeRequest self verb (String "/" x) body options net) = None
            end).
  { intros verb x body options. unfold makeRequest. rewrite protocol_slash.
    destruct (requestor _); [| reflexivity].
    destruct net as [err | resp]; [eauto |].
    destruct (requestComplete resp options); eauto. }
  assert (Hget : ∀ x qs options,
            match requestor (Url.protocol (uri self)) with
            | Some t => ∃ w, sent (makeGetRequest self (String "/" x) qs options net)
                             = Some w ∧ via w = t
            | None => sent (makeGetRequest self (String "/" x) qs options net) = None
            end).
  { intros x qs options. unfold makeGetRequest.
    change (uri self +:+ String "/" x +:+ "?" +:+ qs)
      with (uri self +:+ String "/" (x +:+ "?" +:+ qs)).
    rewrite protocol_slash.
    destruct (requestor _); [| reflexivity].
    destruct net as [err | resp]; [eauto |].
    destruct (getRequestComplete resp options); eauto. }
  destruct op as [o|o|o|o|o|o|o|t s];
    unfold run, createTokenClientCredentials, createTokenPasswordCredentials,
      createTokenAuthorizationCode, authorization_code_request, generateAuthorizationCode,
      createTokenImplicitGrant, refreshToken_, refresh_request, invalidateToken;
    cbv zeta; unfold with_done; cbn [sent];
    try apply Hpost; try apply Hget.
  unfold verifyToken, href_of_verify. cbv zeta.
  match goal with |- context [uri self +:+ ?p +:+ ?q] =>
    change (uri self +:+ p +:+ q)
      with (uri self +:+ String "/" ("tokentypes/all/verify" +:+ q)) end.
  rewrite protocol_slash.
  destruct (requestor _); [eauto | reflexivity].
Qed.

(** ** The other requests can be read back too *)

Lemma string_fields_app (f1 f2 : list (string * string)) :
  string_fields f1 ++ string_fields f2 = string_fields (f1 ++ f2).
Proof. unfold string_fields. by rewrite map_app. Qed.

Ltac split_fields :=
  unfold opt_field;
  repeat match goal with
         | |- context [match ?v with Some _ => _ | None => _ end] => destruct v
         | |- context [String.eqb ?s ""] => destruct (String.eqb s "")
         end.

(** X18. The body of the refresh request can be read back: [grant_type],
    [refresh_token] and (when set) [scope], with exactly the values given. *)
Theorem refresh_body_decodes (self : spi) (options : options) (net : backend) (w : wire)
    (rt : string) (sc : option string) :
  sent (refreshToken_ self options net) = Some w →
  refreshToken options = Some (JStr rt) →
  scope options = JStr <$> sc →
  ∃ body,
    payload w = Some body
    ∧ Querystring.parse body
      = parsed_fields ([("grant_type", "refresh_token"); ("refresh_token", rt)]
                       ++ opt_field "scope" sc).
Proof.
  unfold refreshToken_, refresh_request, with_done. cbn [sent].
  intros (_ & _ & _ & Hp & _)%makeRequest_wire Hrt Hsc.
  rewrite Hrt, Hsc, when_set_string in Hp.
  change [("grant_type", Some (JStr "refresh_token")); ("refresh_token", Some (JStr rt))]
    with (string_fields [("grant_type", "refresh_token"); ("refresh_token", rt)]) in Hp.
  rewrite string_fields_app, stringify_nonempty in Hp by done.
  eexists. split; [exact Hp |].
  apply querystring_roundtrip; [done | |].
  - split_fields; distinct_names.
  - split_fields; vm_compute; lia.
Qed.

Lemma refresh_body_decodes_witness :
  ∃ body,
    Some "grant_type=refresh_token&refresh_token=r%2F3&scope=a%20b" = Some body
    ∧ Querystring.parse body
      = parsed_fields ([("grant_type", "refresh_token"); ("refresh_token", "r/3")]
                       ++ opt_field "scope" (Some "a b")).
Proof.
  apply (refresh_body_decodes example_spi
           (mkOptions (Some (JStr "id")) (Some (JStr "secret")) (Some (JStr "a b")) None None
              None None None None None (Some (JStr "r/3")) None None None None)
           (TransportError (new_Error "reset"))
           (mkWire https "https://api.example.com/oauth/tokentypes/all/refresh" "POST"
              [("Authorization", JStr "Basic aWQ6c2VjcmV0"); ("x-DNA-Api-Key", JStr "k3y");
               ("Content-Type", JStr "application/x-www-form-urlencoded")]
              (Some "grant_type=refresh_token&refresh_token=r%2F3&scope=a%20b"))
           "r/3" (Some "a b")); vm_compute; reflexivity.
Defined.

(** X19. The body of the invalidation request can be read back: [token]
    and (when set) [tokenTypeHint], with exactly the values given. *)
Theorem invalidate_body_decodes (self : spi) (options : options) (net : backend) (w : wire)
    (t : string) (hint : option string) :
  sent (invalidateToken self options net) = Some w →
  token options = Some (JStr t) →
  tokenTypeHint options = JStr <$> hint →
  ∃ body,
    payload w = Some body
    ∧ Querystring.parse body
      = parsed_fields ([("token", t)] ++ opt_field "tokenTypeHint" hint).
Proof.
  unfold invalidateToken.
  intros (_ & _ & _ & Hp & _)%makeRequest_wire Ht Hh.
  rewrite Ht, Hh, when_set_string in Hp.
  change [("token", Some (JStr t))] with (string_fields [("token", t)]) in Hp.
  rewrite string_fields_app, stringify_nonempty in Hp by done.
  eexists. split; [exact Hp |].
  apply querystring_roundtrip; [done | |].
  - split_fields; distinct_names.
  - split_fields; vm_compute; lia.
Qed.

Lemma invalidate_body_decodes_witness :
  ∃ body,
    Some "token=t0%3Dken&tokenTypeHint=access_token" = Some body
    ∧ Querystring.parse body
      = parsed_fields ([("token", "t0=ken")] ++ opt_field "tokenTypeHint" (Some "access_token")).
Proof.
  apply (invalidate_body_decodes example_spi
           (mkOptions (Some (JStr "id")) (Some (JStr "secret")) None None None
              None None None None None None (Some (JStr "t0=ken"))
              (Some (JStr "access_token")) None None)
           (TransportError (new_Error "reset"))
           (mkWire https "https://api.example.com/oauth/tokentypes/all/invalidate" "POST"
              [("Authorization", JStr "Basic aWQ6c2VjcmV0"); ("x-DNA-Api-Key", JStr "k3y");
               ("Content-Type", JStr "application/x-www-form-urlencoded")]
              (Some "token=t0%3Dken&tokenTypeHint=access_token"))
           "t0=ken" (Some "access_token")); vm_compute; reflexivity.
Defined.

(** X20. The URL of the two redirect operations is the base URI, the path
    of the operation, [?] and a query that can be read back: [response_type]
    ([code] or [token]), [client_id], and [redirect_uri], [scope] and [state]
    when set, with exactly the values given.  (For the implicit grant: when no
    [attributes] are given.) *)
Theorem redirect_query_decodes (self : spi) (options : options) (net : backend) (w : wire)
    (cid : string) (ru sc st : option string) :
  clientId options = Some (JStr cid) →
  redirectUri options = JStr <$> ru →
  scope options = JStr <$> sc →
  state options = JStr <$> st →
  let rest := opt_field "redirect_uri" ru ++ opt_field "scope" sc ++ opt_field "state" st in
  (sent (generateAuthorizationCode self options net) = Some w →
   ∃ query,
     href w = uri self +:+ "/tokentypes/authcode/authcodes?" +:+ query
     ∧ Querystring.parse query
       = parsed_fields ([("response_type", "code"); ("client_id", cid)] ++ rest))
  ∧ (sent (createTokenImplicitGrant self options net) = Some w →
     truthy_opt (attributes options) = false →
     ∃ query,
       href w = uri self +:+ "/tokentypes/implicit/tokens?" +:+ query
       ∧ Querystring.parse query
         = parsed_fields ([("response_type", "token"); ("client_id", cid)] ++ rest)).
Proof.
  intros Hcid Hru Hsc Hst rest. unfold rest.
  unfold generateAuthorizationCode, createTokenImplicitGrant. cbv zeta.
  rewrite Hcid, Hru, Hsc, Hst, !when_set_string. split.
  - intros (_ & Hhref & _)%makeGetRequest_wire.
    change [("response_type", Some (JStr "code")); ("client_id", Some (JStr cid))]
      with (string_fields [("response_type", "code"); ("client_id", cid)]) in Hhref.
    rewrite !string_fields_app in Hhref.
    eexists. split; [exact Hhref |].
    apply querystring_roundtrip; [done | |].
    + split_fields; distinct_names.
    + split_fields; vm_compute; lia.
  - intros (_ & Hhref & _)%makeGetRequest_wire Hat.
    rewrite (when_set_unset _ _ Hat) in Hhref.
    change ([("response_type", Some (JStr "token")); ("client_id", Some (JStr cid))] ++ [] ++ ?x)
      with (string_fields [("response_type", "token"); ("client_id", cid)] ++ x) in Hhref.
    rewrite !string_fields_app in Hhref.
    eexists. split; [exact Hhref |].
    apply querystring_roundtrip; [done | |].
    + split_fields; distinct_names.
    + split_fields; vm_compute; lia.
Qed.

Lemma redirect_query_decodes_witness :
  ∃ query,
    "https://api.example.com/oauth/tokentypes/authcode/authcodes?response_type=code&client_id=id&redirect_uri=https%3A%2F%2Fapp%2Fcb&state=x%26y"
    = uri example_spi +:+ "/tokentypes/authcode/authcodes?" +:+ query
    ∧ Querystring.parse query
      = parsed_fields ([("response_type", "code"); ("client_id", "id")]
                       ++ opt_field "redirect_uri" (Some "https://app/cb")
                       ++ opt_field "scope" None ++ opt_field "state" (Some "x&y")).
Proof.
  apply (proj1 (redirect_query_decodes example_spi
           (mkOptions (Some (JStr "id")) None None None None None None None
              (Some (JStr "https://app/cb")) (Some (JStr "x&y")) None None None None None)
           (TransportError (new_Error "reset"))
           (mkWire https
              "https://api.example.com/oauth/tokentypes/authcode/authcodes?response_type=code&client_id=id&redirect_uri=https%3A%2F%2Fapp%2Fcb&state=x%26y"
              "GET" [("x-DNA-Api-Key", JStr "k3y")] None)
           "id" (Some "https://app/cb") None (Some "x&y") eq_refl eq_refl eq_refl eq_refl)).
  vm_compute. reflexivity.
Defined.
